(** * Sentiment-based energy commodity tracker: alignment and correlation

    A shallow embedding of [tracker_app.py].  The script is a straight-line
    pandas pipeline: it resamples the search-interest frame onto business
    days, forward-fills it, inner-joins it with the closing price, computes
    the Pearson correlation matrix, computes lagged correlations on copies of
    the merged frame, and exports the merged frame.

    Modelling conventions.
    - A timestamp is a [Z]: seconds since 1970-01-01T00:00.
    - A cell is an [option Q]: [None] is pandas' NaN, [Some q] a number kept
      as an exact rational.  Sums, means and coefficients are computed
      exactly; the rounding of pandas' float64 arithmetic is not part of the
      model, and a statement about the value of a mean or of a coefficient
      is a statement about its exact value.
    - A frame is stored column-major, as pandas does: an index and a list of
      labelled columns.
    - [merged_df] and its copies live in a heap of frames, because the script
      mutates them in place ([rename(..., inplace=True)], [shifted[kw] = ...]).
    - The pandas calls are embedded with their default arguments, as the
      script calls them. *)

From Stdlib Require Import ZArith QArith String List Bool Arith Lia.
From Stdlib Require Import Qfield Sorted.
Import ListNotations.

Open Scope Z_scope.

(** ** Cells and columns *)

Definition timestamp := Z.
Definition cell := option Q.
Definition column := list cell.

Record frame := mkFrame {
  index : list timestamp;
  columns : list (string * column)
}.

Record series := mkSeries {
  sname : string;
  sindex : list timestamp;
  sdata : column
}.

Definition column_names (f : frame) : list string := map fst (columns f).

(** [df[name]]: the first column carrying the label. *)
Fixpoint lookup_column (name : string) (cols : list (string * column)) : option column :=
  match cols with
  | [] => None
  | (n, c) :: rest => if String.eqb n name then Some c else lookup_column name rest
  end.

(** [df[name] = c]: replaces the column in place, appends it when absent. *)
Fixpoint set_column (name : string) (c : column) (cols : list (string * column))
  : list (string * column) :=
  match cols with
  | [] => [(name, c)]
  | (n, old) :: rest =>
      if String.eqb n name then (n, c) :: rest else (n, old) :: set_column name c rest
  end.

(** [df.empty]: some axis has length zero. *)
Definition frame_empty (f : frame) : bool :=
  match index f, columns f with
  | [], _ => true
  | _, [] => true
  | _, _ => false
  end.

Definition is_known (x : cell) : bool :=
  match x with
  | Some _ => true
  | None => false
  end.

(** No NaN in the column, in the frame, in the series. *)
Definition no_nulls (c : column) : bool := forallb is_known c.

Definition frame_complete (f : frame) : bool :=
  forallb (fun nc => no_nulls (snd nc)) (columns f).

Definition series_complete (s : series) : bool := no_nulls (sdata s).

(** A frame without rows. *)
Definition all_empty (f : frame) : Prop :=
  forall n c, In (n, c) (columns f) -> c = [].

(** Every column is as long as the index. *)
Definition frame_wf (f : frame) : bool :=
  forallb (fun nc => (length (snd nc) =? length (index f))%nat) (columns f).

Definition series_wf (s : series) : bool :=
  (length (sdata s) =? length (sindex s))%nat.

(** ** The business-day calendar *)

Module Calendar.

Definition SECONDS_PER_DAY : Z := 86400.

(** Day number of a timestamp (what [Timestamp.normalize] keeps). *)
Definition day_of (t : timestamp) : Z := t / SECONDS_PER_DAY.

Definition midnight (d : Z) : timestamp := d * SECONDS_PER_DAY.

(** Monday is 0; day 0 (1970-01-01) was a Thursday. *)
Definition weekday (d : Z) : Z := (d + 3) mod 7.

Definition is_business (d : Z) : bool := weekday d <? 5.

(** [BusinessDay.rollback]: a weekend day moves back to its Friday. *)
Definition rollback (d : Z) : Z :=
  if is_business d then d else d - (weekday d - 4).

(** [d + BusinessDay(1)]. *)
Definition next_bday (d : Z) : Z :=
  if weekday d =? 4 then d + 3
  else if weekday d =? 5 then d + 2
  else d + 1.

(** [date_range(first, last, freq='B')], in day numbers. *)
Definition bdate_range (first last : Z) : list Z :=
  filter is_business
    (map (fun i => first + Z.of_nat i) (seq 0 (Z.to_nat (last - first + 1)))).

(** Consecutive edges [e0; e1; e2 ...] give the bins [e0,e1), [e1,e2) ... *)
Fixpoint bins (edges : list Z) : list (Z * Z) :=
  match edges with
  | a :: (b :: _) as rest => (a, b) :: bins rest
  | _ => []
  end.

Definition list_min (t : Z) (ts : list Z) : Z := fold_left Z.min ts t.
Definition list_max (t : Z) (ts : list Z) : Z := fold_left Z.max ts t.

(** The bins [resample('B')] lays over an index: closed and labelled on the
    left, from the business day at or before the first timestamp up to the
    business day after the last one. *)
Definition resample_bins (ix : list timestamp) : list (Z * Z) :=
  match ix with
  | [] => []
  | t :: ts =>
      let first := rollback (day_of (list_min t ts)) in
      let last := next_bday (day_of (list_max t ts)) in
      bins (bdate_range first last)
  end.

Definition in_bin (b : Z * Z) (t : timestamp) : bool :=
  (midnight (fst b) <=? t) && (t <? midnight (snd b)).

End Calendar.

(** ** Resampling, filling, joining *)

Definition Qsum (xs : list Q) : Q := fold_right Qplus 0%Q xs.

Fixpoint known (c : column) : list Q :=
  match c with
  | [] => []
  | Some q :: rest => q :: known rest
  | None :: rest => known rest
  end.

(** Group mean, NaN skipped; an empty group gives NaN. *)
Definition mean (c : column) : cell :=
  match known c with
  | [] => None
  | q :: qs => Some (Qsum (q :: qs) / inject_Z (Z.of_nat (length (q :: qs))))%Q
  end.

(** The cells of a column whose timestamp falls in the bin. *)
Definition bin_cells (ix : list timestamp) (c : column) (b : Z * Z) : column :=
  map snd (filter (fun p => Calendar.in_bin b (fst p)) (combine ix c)).

(** One column, bin by bin. *)
Definition bin_means (ix : list timestamp) (c : column) : column :=
  map (fun b => mean (bin_cells ix c b)) (Calendar.resample_bins ix).

(** [df.resample('B').mean()] *)
Definition resample_B_mean (f : frame) : frame :=
  {| index := map (fun b => Calendar.midnight (fst b)) (Calendar.resample_bins (index f));
     columns := map (fun nc => (fst nc, bin_means (index f) (snd nc))) (columns f) |}.

(** Forward fill of one column: [last] is the most recent known value. *)
Fixpoint ffill_from (last : cell) (c : column) : column :=
  match c with
  | [] => []
  | Some v :: rest => Some v :: ffill_from (Some v) rest
  | None :: rest => last :: ffill_from last rest
  end.

Definition ffill (c : column) : column := ffill_from None c.

(** [df.fillna(method='ffill')] *)
Definition fillna_ffill (f : frame) : frame :=
  {| index := index f;
     columns := map (fun nc => (fst nc, ffill (snd nc))) (columns f) |}.

(** [df[name]] as a series; [None] is Python's KeyError. *)
Definition frame_getitem (f : frame) (name : string) : option series :=
  match lookup_column name (columns f) with
  | Some c => Some {| sname := name; sindex := index f; sdata := c |}
  | None => None
  end.

Definition enumerate {A : Type} (l : list A) : list (nat * A) :=
  combine (seq 0 (length l)) l.

(** Inner join on the two indexes: the position pairs with equal timestamps,
    in the order of the left index. *)
Definition join_indexers (l r : list timestamp) : list (nat * nat) :=
  flat_map
    (fun it =>
       map (fun ju => (fst it, fst ju))
           (filter (fun ju => snd ju =? snd it) (enumerate r)))
    (enumerate l).

Definition take_cells (ix : list nat) (c : column) : column :=
  map (fun i => nth i c None) ix.

Definition take_index (ix : list nat) (ts : list timestamp) : list timestamp :=
  map (fun i => nth i ts 0) ix.

Definition has_label (name : string) (names : list string) : bool :=
  existsb (String.eqb name) names.

(** [pd.merge(left, right, left_index=True, right_index=True)] with a series
    on the right: inner join; a label present on both sides gets the
    suffixes [_x] and [_y]. *)
Definition merge (left : frame) (right : series) : frame :=
  let ixs := join_indexers (index left) (sindex right) in
  let clash := has_label (sname right) (column_names left) in
  let lname n :=
    if clash && String.eqb n (sname right) then (n ++ "_x")%string else n in
  let rname := if clash then (sname right ++ "_y")%string else sname right in
  {| index := take_index (map fst ixs) (index left);
     columns :=
       map (fun nc => (lname (fst nc), take_cells (map fst ixs) (snd nc))) (columns left)
       ++ [(rname, take_cells (map snd ixs) (sdata right))] |}.

(** [df.rename(columns={old: new})] *)
Definition rename_columns (old new : string) (f : frame) : frame :=
  {| index := index f;
     columns :=
       map (fun nc => (if String.eqb (fst nc) old then new else fst nc, snd nc))
           (columns f) |}.

(** Line 67 of the script. *)
Definition trends_of (interest_over_time_df : frame) : frame :=
  fillna_ffill (resample_B_mean interest_over_time_df).

(** Lines 68-69 of the script, as a value. *)
Definition merged_of (interest_over_time_df : frame) (close : series) : frame :=
  rename_columns "Close" "Oil Price" (merge (trends_of interest_over_time_df) close).

(** ** Pearson correlation

    [DataFrame.corr()] with its defaults ([method='pearson'],
    [min_periods=1]) runs pandas' [nancorr]: for each pair of columns it
    keeps the rows where both cells are numbers and accumulates Welford's
    sums over them.  The coefficient [covxy / sqrt (ssqdm_x * ssqdm_y)] is
    kept in exact form, since the square root of a rational need not be
    rational; a zero divisor gives NaN. *)

Inductive corr_value :=
| CorrNaN
| CorrOf (cov ssq : Q).

Fixpoint complete_pairs (x y : column) : list (Q * Q) :=
  match x, y with
  | Some vx :: x', Some vy :: y' => (vx, vy) :: complete_pairs x' y'
  | _ :: x', _ :: y' => complete_pairs x' y'
  | _, _ => []
  end.

Record welford := mkWelford {
  nobs : nat;
  meanx : Q;
  meany : Q;
  ssqdm_x : Q;
  ssqdm_y : Q;
  covxy : Q
}.

Definition welford_init : welford := mkWelford 0 0 0 0 0 0.

Definition welford_step (w : welford) (v : Q * Q) : welford :=
  let vx := fst v in
  let vy := snd v in
  let n := S (nobs w) in
  let dx := (vx - meanx w)%Q in
  let dy := (vy - meany w)%Q in
  let mx := (meanx w + 1 / inject_Z (Z.of_nat n) * dx)%Q in
  let my := (meany w + 1 / inject_Z (Z.of_nat n) * dy)%Q in
  mkWelford n mx my
    (ssqdm_x w + (vx - mx) * dx)%Q
    (ssqdm_y w + (vy - my) * dy)%Q
    (covxy w + (vx - mx) * dy)%Q.

Definition welford_of (rows : list (Q * Q)) : welford :=
  fold_left welford_step rows welford_init.

Definition min_periods : nat := 1.

(** The coefficient over the rows that entered the sums. *)
Definition corr_over (rows : list (Q * Q)) : corr_value :=
  let w := welford_of rows in
  if (nobs w <? min_periods)%nat then CorrNaN
  else
    let d := (ssqdm_x w * ssqdm_y w)%Q in
    if Qeq_bool d 0 then CorrNaN else CorrOf (covxy w) d.

Definition pair_corr (x y : column) : corr_value :=
  corr_over (complete_pairs x y).

(** Zero variance: the numbers of the column are all the same. *)
Definition constant_column (c : column) : bool :=
  match known c with
  | [] => true
  | v :: rest => forallb (Qeq_bool v) rest
  end.

(** The square result of [nancorr]: the loop computes the entries on and
    below the diagonal and mirrors them. [entries] is indexed row first. *)
Definition nancorr (mat : list column) : list (list corr_value) :=
  let K := length mat in
  map (fun xi =>
         map (fun yi =>
                if (yi <=? xi)%nat
                then pair_corr (nth xi mat []) (nth yi mat [])
                else pair_corr (nth yi mat []) (nth xi mat []))
             (seq 0 K))
      (seq 0 K).

Record corr_matrix := mkCorr {
  labels : list string;
  entries : list (list corr_value)
}.

(** [df.corr()] *)
Definition corr (f : frame) : corr_matrix :=
  {| labels := column_names f; entries := nancorr (map snd (columns f)) |}.

Fixpoint position (name : string) (names : list string) : option nat :=
  match names with
  | [] => None
  | n :: rest =>
      if String.eqb n name then Some 0%nat
      else option_map S (position name rest)
  end.

(** [m[col][row]]; [None] is Python's KeyError. *)
Definition matrix_getitem (m : corr_matrix) (col row : string) : option corr_value :=
  match position col (labels m), position row (labels m) with
  | Some c, Some r => Some (nth c (nth r (entries m) []) CorrNaN)
  | _, _ => None
  end.

(** [Series.shift(k)] for [k >= 0]: the value at row [i - k] moves to row
    [i]; the first [k] rows become NaN. *)
Definition shift (k : nat) (c : column) : column :=
  repeat None (Nat.min k (length c)) ++ firstn (length c - k) c.

(** ** The Python heap and the script monad *)

Definition loc := nat.
Definition heap := list frame.

Inductive outcome (A : Type) :=
| Ok (a : A) (h : heap)
| Stopped (msg : string)
| Raised (exn : string).

Arguments Ok {A} a h.
Arguments Stopped {A} msg.
Arguments Raised {A} exn.

Definition py (A : Type) := heap -> outcome A.

Definition ret {A : Type} (a : A) : py A := fun h => Ok a h.

Definition bind {A B : Type} (c : py A) (k : A -> py B) : py B :=
  fun h =>
    match c h with
    | Ok a h' => k a h'
    | Stopped msg => Stopped msg
    | Raised exn => Raised exn
    end.

(** [st.warning]/[st.error] followed by [st.stop()]. *)
Definition st_stop {A : Type} (msg : string) : py A := fun _ => Stopped msg.

Definition raise {A : Type} (exn : string) : py A := fun _ => Raised exn.

Declare Scope py_scope.
Delimit Scope py_scope with py.
Notation "x <- c ;; k" := (bind c (fun x => k))
  (at level 61, c at next level, right associativity) : py_scope.
Notation "c ;;; k" := (bind c (fun _ => k))
  (at level 61, right associativity) : py_scope.
Open Scope py_scope.

Definition key_of {A : Type} (o : option A) : py A :=
  match o with
  | Some a => ret a
  | None => raise "KeyError"
  end.

Definition new_frame (f : frame) : py loc :=
  fun h => Ok (length h) (h ++ [f]).

Definition read_frame (l : loc) : py frame :=
  fun h =>
    match nth_error h l with
    | Some f => Ok f h
    | None => Raised "ReferenceError"
    end.

Fixpoint heap_set (l : loc) (f : frame) (h : heap) : heap :=
  match h, l with
  | [], _ => []
  | _ :: rest, O => f :: rest
  | g :: rest, S l' => g :: heap_set l' f rest
  end.

Definition write_frame (l : loc) (f : frame) : py unit :=
  fun h => Ok tt (heap_set l f h).

(** [df.copy()]: a new object with the same contents. *)
Definition df_copy (l : loc) : py loc :=
  f <- read_frame l ;; new_frame f.

(** [df[name]] *)
Definition df_getitem (l : loc) (name : string) : py column :=
  f <- read_frame l ;; key_of (lookup_column name (columns f)).

(** [df[name] = c] *)
Definition df_setitem (l : loc) (name : string) (c : column) : py unit :=
  f <- read_frame l ;;
  write_frame l {| index := index f; columns := set_column name c (columns f) |}.

(** [df.rename(columns={old: new}, inplace=True)] *)
Definition df_rename_inplace (l : loc) (old new : string) : py unit :=
  f <- read_frame l ;; write_frame l (rename_columns old new f).

(** [df.corr()] *)
Definition df_corr (l : loc) : py corr_matrix :=
  f <- read_frame l ;; ret (corr f).

(** A [for] loop whose body appends one value per round. *)
Fixpoint for_each {A B : Type} (xs : list A) (body : A -> py B) : py (list B) :=
  match xs with
  | [] => ret []
  | x :: rest =>
      b <- body x ;;
      bs <- for_each rest body ;;
      ret (b :: bs)
  end.

(** A Python dict: insertion-ordered, a set key keeps its place. *)
Fixpoint dict_set {V : Type} (k : string) (v : V) (d : list (string * V))
  : list (string * V) :=
  match d with
  | [] => [(k, v)]
  | (k', v') :: rest =>
      if String.eqb k' k then (k', v) :: rest else (k', v') :: dict_set k v rest
  end.

(** ** The script *)

(** Lines 85-87: one lag of one keyword. *)
Definition lag_corr_of (merged_df : loc) (kw : string) (lag : nat) : py corr_value :=
  shifted <- df_copy merged_df ;;
  col <- df_getitem shifted kw ;;
  df_setitem shifted kw (shift lag col) ;;;
  c <- df_corr shifted ;;
  key_of (matrix_getitem c kw "Oil Price").

(** Lines 83-88: [range(1, 8)]. *)
Definition lags_of (merged_df : loc) (kw : string) : py (list corr_value) :=
  for_each (seq 1 7) (lag_corr_of merged_df kw).

(** Lines 81-89. *)
Fixpoint lag_loop (merged_df : loc) (keywords : list string)
    (lag_results : list (string * list corr_value))
  : py (list (string * list corr_value)) :=
  match keywords with
  | [] => ret lag_results
  | kw :: rest =>
      lags <- lags_of merged_df kw ;;
      lag_loop merged_df rest (dict_set kw lags lag_results)
  end.

(** [df.to_csv()], as the fields it writes: the column labels after the
    index label, then one record per row, in the order of the index.  The
    text of a field (date format, digits of a float, quoting) is pandas' and
    is not modelled. *)
Record csv := mkCsv {
  csv_header : list string;
  csv_records : list (timestamp * list cell)
}.

Definition to_csv (f : frame) : csv :=
  {| csv_header := column_names f;
     csv_records :=
       map (fun i => (nth i (index f) 0, map (fun nc => nth i (snd nc) None) (columns f)))
           (seq 0 (length (index f))) |}.

Record report := mkReport {
  merged : frame;
  correlation : corr_matrix;
  lag_df : list (string * list corr_value);
  download : csv
}.

(** The whole run, from the widget state and the two fetched frames.  The
    display calls ([st.write], [st.dataframe], the plots) read the frames
    and change nothing; they are left out. *)
Definition tracker_app (keywords : list string)
    (interest_over_time_df oil_data : frame) : py report :=
  if (length keywords =? 0)%nat then st_stop "Please select at least one keyword."
  else if frame_empty interest_over_time_df
  then st_stop "No trend data found for the selected keywords/timeframe."
  else if frame_empty oil_data then st_stop "Could not fetch oil price data."
  else
    close <- key_of (frame_getitem oil_data "Close") ;;
    let trends := fillna_ffill (resample_B_mean interest_over_time_df) in
    merged_df <- new_frame (merge trends close) ;;
    df_rename_inplace merged_df "Close" "Oil Price" ;;;
    correlation <- df_corr merged_df ;;
    lag_results <- lag_loop merged_df keywords [] ;;
    final <- read_frame merged_df ;;
    ret {| merged := final;
           correlation := correlation;
           lag_df := lag_results;
           download := to_csv final |}.

(** A run from the empty heap. *)
Definition run (keywords : list string) (interest_over_time_df oil_data : frame)
  : outcome report :=
  tracker_app keywords interest_over_time_df oil_data [].

Definition aborted {A : Type} (o : outcome A) : bool :=
  match o with
  | Ok _ _ => false
  | _ => true
  end.

(** ** The lag analysis as a function of the merged table

    What the lag loop is meant to compute, written without a heap: every lag
    of every keyword is taken from the one merged table [f]. *)

(** The copy of [f] whose column [kw] is shifted by [k]. *)
Definition shifted_copy (f : frame) (kw : string) (k : nat) : option frame :=
  match lookup_column kw (columns f) with
  | Some x =>
      Some {| index := index f; columns := set_column kw (shift k x) (columns f) |}
  | None => None
  end.

Definition lag_value (f : frame) (kw : string) (k : nat) : option corr_value :=
  match shifted_copy f kw k with
  | Some g => matrix_getitem (corr g) kw "Oil Price"
  | None => None
  end.

Fixpoint lag_values (f : frame) (kw : string) (ks : list nat)
  : option (list corr_value) :=
  match ks with
  | [] => Some []
  | k :: rest =>
      match lag_value f kw k, lag_values f kw rest with
      | Some v, Some vs => Some (v :: vs)
      | _, _ => None
      end
  end.

Fixpoint lag_results_of (f : frame) (keywords : list string)
    (acc : list (string * list corr_value))
  : option (list (string * list corr_value)) :=
  match keywords with
  | [] => Some acc
  | kw :: rest =>
      match lag_values f kw (seq 1 7) with
      | Some lags => lag_results_of f rest (dict_set kw lags acc)
      | None => None
      end
  end.

(** The copies a completed lag analysis leaves behind, oldest first. *)
Definition copies_of_keyword (f : frame) (kw : string) (ks : list nat) : list frame :=
  flat_map (fun k => match shifted_copy f kw k with Some g => [g] | None => [] end) ks.

Definition lag_copies (f : frame) (keywords : list string) : list frame :=
  flat_map (fun kw => copies_of_keyword f kw (seq 1 7)) keywords.

(** The rows that enter the correlation of [x] lagged by [k] against [y]. *)
Definition lagged_rows (k : nat) (x y : column) : list (Q * Q) :=
  complete_pairs (shift k x) y.

Definition swap (p : Q * Q) : Q * Q := (snd p, fst p).

(** The matrix entry read by [corr()[kw]['Oil Price']], from the rows of the
    lagged keyword column against the price column: [nancorr] takes the
    later column of the table as its first series. *)
Definition lag_entry (ckw cprice : nat) (rows : list (Q * Q)) : corr_value :=
  if (ckw <=? cprice)%nat then corr_over (map swap rows) else corr_over rows.

(** ** The sidebar and the price period *)

(** Lines 22-26: the options of the timeframe select box. *)
Definition timeframe_options : list string :=
  ["today 3-m"; "today 12-m"; "today 5-y"]%string.

(** Lines 50-54. *)
Definition timeframe_mapping : list (string * string) :=
  [("today 3-m", "3mo"); ("today 12-m", "12mo"); ("today 5-y", "5y")]%string.

(** [d.get(key, default)] *)
Fixpoint dict_get {V : Type} (d : list (string * V)) (key : string) (default : V) : V :=
  match d with
  | [] => default
  | (k, v) :: rest => if String.eqb k key then v else dict_get rest key default
  end.

(** Line 56. *)
Definition selected_period (timeframe : string) : string :=
  dict_get timeframe_mapping timeframe "3mo"%string.

(** ** Reading a coefficient

    [CorrOf cov ssq] stands for [cov / sqrt ssq]. *)

(** Two coefficients are the same number. *)
Definition corr_same (u v : corr_value) : Prop :=
  match u, v with
  | CorrNaN, CorrNaN => True
  | CorrOf c d, CorrOf c' d' => (c == c')%Q /\ (d == d')%Q
  | _, _ => False
  end.

(** ** Pearson's coefficient by the textbook

    The standard coefficient of two series over their common rows, to be
    compared with what the loop of [nancorr] accumulates: the sum of the
    products of the deviations from the two means, over the square root of
    the product of the two sums of squared deviations; undefined without a
    row or with a variance of zero. *)

Definition average (xs : list Q) : Q :=
  (Qsum xs / inject_Z (Z.of_nat (length xs)))%Q.

Definition deviation_products (f g : Q * Q -> Q) (mf mg : Q) (rows : list (Q * Q)) : Q :=
  Qsum (map (fun p => (f p - mf) * (g p - mg))%Q rows).

Definition pearson_r (rows : list (Q * Q)) : corr_value :=
  match rows with
  | [] => CorrNaN
  | _ :: _ =>
      let mx := average (map fst rows) in
      let my := average (map snd rows) in
      let sxx := deviation_products fst fst mx mx rows in
      let syy := deviation_products snd snd my my rows in
      let sxy := deviation_products fst snd mx my rows in
      if Qeq_bool (sxx * syy) 0 then CorrNaN else CorrOf sxy (sxx * syy)%Q
  end.

(** The running sums of the loop against the plain sums of the rows read so
    far: the sum of each series, of its squares, and of the products. *)
Definition raw_sums_ok (w : welford) (Sx Sy Sxx Syy Sxy : Q) : Prop :=
  (inject_Z (Z.of_nat (nobs w)) * meanx w == Sx)%Q
  /\ (inject_Z (Z.of_nat (nobs w)) * meany w == Sy)%Q
  /\ (ssqdm_x w == Sxx - meanx w * Sx)%Q
  /\ (ssqdm_y w == Syy - meany w * Sy)%Q
  /\ (covxy w == Sxy - meanx w * Sy)%Q.

(** ** Sample inputs

    2024-01-01, a Monday, is day 19723; 2024-03-04, a Monday, is day 19786. *)

Module Examples.

Definition day (d : Z) : timestamp := Calendar.midnight d.

Definition num (z : Z) : cell := Some (inject_Z z).

(** Daily interest for Monday to Sunday, as pytrends delivers it: one column
    per keyword and the [isPartial] flag. *)
Definition week_interest : frame :=
  {| index := map day [19723; 19724; 19725; 19726; 19727; 19728; 19729];
     columns :=
       [("crude oil"%string, map num [40; 42; 45; 43; 50; 48; 52]);
        ("isPartial"%string, map num [0; 0; 0; 0; 0; 0; 1])] |}.

(** Daily prices for the same Monday to Friday. *)
Definition week_oil : frame :=
  {| index := map day [19723; 19724; 19725; 19726; 19727];
     columns :=
       [("Open"%string, map num [70; 71; 72; 70; 73]);
        ("Close"%string, map num [71; 72; 70; 73; 74])] |}.

Definition week_close : series :=
  {| sname := "Close"; sindex := index week_oil; sdata := map num [71; 72; 70; 73; 74] |}.

(** Weekly interest in January, prices in March. *)
Definition january_interest : frame :=
  {| index := map day [19729; 19736];
     columns :=
       [("crude oil"%string, map num [40; 55]);
        ("isPartial"%string, map num [0; 0])] |}.

Definition march_oil : frame :=
  {| index := map day [19786; 19787; 19788];
     columns := [("Close"%string, map num [78; 79; 80])] |}.

Definition march_close : series :=
  {| sname := "Close"; sindex := index march_oil; sdata := map num [78; 79; 80] |}.

(** Two trading days only. *)
Definition two_day_interest : frame :=
  {| index := map day [19723; 19724];
     columns :=
       [("crude oil"%string, map num [40; 42]);
        ("isPartial"%string, map num [0; 0])] |}.

Definition two_day_oil : frame :=
  {| index := map day [19723; 19724];
     columns := [("Close"%string, map num [71; 72])] |}.

(** A merged table of five trading days. *)
Definition week_crude : column := map num [40; 42; 45; 43; 50].

Definition week_price : column := map num [71; 72; 70; 73; 74].

Definition week_table : frame :=
  {| index := map day [19723; 19724; 19725; 19726; 19727];
     columns :=
       [("crude oil"%string, week_crude);
        ("isPartial"%string, map num [0; 0; 0; 0; 0]);
        ("Oil Price"%string, week_price)] |}.

(** A merged table whose first column never moves. *)
Definition flat_crude : column := map num [5; 5; 5].

Definition flat_table : frame :=
  {| index := map day [19723; 19724; 19725];
     columns :=
       [("crude oil"%string, flat_crude);
        ("LNG"%string, map num [7; 7; 7]);
        ("Oil Price"%string, map num [71; 72; 70])] |}.

End Examples.

(** * Properties *)

(** ** Positions and the join *)

Section ListFacts.

Context {A : Type}.

Lemma in_combine_seq (l : list A) (s i : nat) (x : A) :
  In (i, x) (combine (seq s (length l)) l) <->
  (s <= i)%nat /\ nth_error l (i - s) = Some x.
Proof.
  revert s. induction l as [|a l IH]; intros s; simpl.
  - split; [tauto|]. intros [_ H]. destruct (i - s)%nat; discriminate.
  - rewrite IH. split.
    + intros [H | [Hle H]].
      * inversion H; subst. rewrite Nat.sub_diag. split; [lia | reflexivity].
      * split; [lia|]. replace (i - s)%nat with (S (i - S s)) by lia. exact H.
    + intros [Hle H]. destruct (Nat.eq_dec s i) as [-> | Hne].
      * rewrite Nat.sub_diag in H. simpl in H. left. congruence.
      * right. split; [lia|].
        replace (i - s)%nat with (S (i - S s)) in H by lia. exact H.
Qed.

Lemma in_enumerate (l : list A) (i : nat) (x : A) :
  In (i, x) (enumerate l) <-> nth_error l i = Some x.
Proof.
  unfold enumerate. rewrite in_combine_seq, Nat.sub_0_r.
  split; [tauto | split; [lia | assumption]].
Qed.

Lemma nth_error_nth_eq (l : list A) (i : nat) (x d : A) :
  nth_error l i = Some x -> nth i l d = x.
Proof.
  revert i. induction l as [|a l IH]; intros [|i]; simpl; try discriminate.
  - congruence.
  - apply IH.
Qed.

End ListFacts.

Lemma in_join_indexers (l r : list timestamp) (i j : nat) :
  In (i, j) (join_indexers l r) <->
  exists t, nth_error l i = Some t /\ nth_error r j = Some t.
Proof.
  unfold join_indexers. rewrite in_flat_map. split.
  - intros [[i' t] [Hl Hin]]. apply in_map_iff in Hin.
    destruct Hin as [[j' u] [Heq Hf]]. simpl in *.
    inversion Heq; subst. apply filter_In in Hf. destruct Hf as [Hr Hu].
    simpl in Hu. apply Z.eqb_eq in Hu. subst u.
    exists t. split; [apply in_enumerate, Hl | apply in_enumerate, Hr].
  - intros [t [Hl Hr]]. exists (i, t). split; [apply in_enumerate, Hl|].
    apply in_map_iff. exists (j, t). split; [reflexivity|].
    apply filter_In. split; [apply in_enumerate, Hr | apply Z.eqb_refl].
Qed.

(** The timestamps kept by the join are those present on both sides. *)
Lemma in_joined_index (l r : list timestamp) (t : timestamp) :
  In t (take_index (map fst (join_indexers l r)) l) <-> In t l /\ In t r.
Proof.
  unfold take_index. rewrite map_map, in_map_iff. split.
  - intros [[i j] [Ht Hin]]. simpl in Ht. apply in_join_indexers in Hin.
    destruct Hin as [u [Hl Hr]]. rewrite (nth_error_nth_eq _ _ _ _ Hl) in Ht.
    subst u. split; eapply nth_error_In; eassumption.
  - intros [Hl Hr]. apply In_nth_error in Hl, Hr.
    destruct Hl as [i Hi], Hr as [j Hj]. exists (i, j). simpl. split.
    + apply nth_error_nth_eq, Hi.
    + apply in_join_indexers. exists t. tauto.
Qed.

Lemma index_rename_columns (old new : string) (f : frame) :
  index (rename_columns old new f) = index f.
Proof. reflexivity. Qed.

Lemma index_merged_of (interest : frame) (close : series) :
  index (merged_of interest close) =
  take_index (map fst (join_indexers (index (trends_of interest)) (sindex close)))
             (index (trends_of interest)).
Proof. reflexivity. Qed.

(** C6: the timestamps of the merged table are exactly those that the
    filled, business-day interest frame and the price series have in common:
    the join matches timestamps exactly, and a day missing on either side is
    not in the result. *)
Theorem merged_index_is_intersection (interest_over_time_df : frame)
    (close : series) (t : timestamp) :
  In t (index (merged_of interest_over_time_df close)) <->
  In t (index (trends_of interest_over_time_df)) /\ In t (sindex close).
Proof.
  rewrite index_merged_of. apply in_joined_index.
Qed.

(** ** Forward fill *)

Lemma length_ffill_from (last : cell) (c : column) :
  length (ffill_from last c) = length c.
Proof.
  revert last. induction c as [|[v|] c IH]; intros last; simpl; auto.
Qed.







Lemma known_nonempty (c : column) (q : Q) : In (Some q) c -> known c <> [].
Proof.
  induction c as [|[v|] c IH]; simpl; intros H.
  - contradiction.
  - discriminate.
  - destruct H as [H | H]; [discriminate | auto].
Qed.


Lemma mean_is_average (c : column) (m : Q) :
  mean c = Some m ->
  (m * inject_Z (Z.of_nat (length (known c))) == Qsum (known c))%Q.
Proof.
  unfold mean. destruct (known c) as [|q qs] eqn:E; [discriminate|].
  intros H.
  assert (Hm : m = (Qsum (q :: qs) / inject_Z (Z.of_nat (length (q :: qs))))%Q)
    by congruence.
  rewrite Hm. clear H Hm.
  assert (Hn : ~ (inject_Z (Z.of_nat (length (q :: qs))) == 0)%Q).
  { unfold Qeq. simpl. lia. }
  generalize dependent (inject_Z (Z.of_nat (length (q :: qs)))).
  generalize (Qsum (q :: qs)). intros s n Hn. field. exact Hn.
Qed.


Lemma columns_trends_of (f : frame) :
  columns (trends_of f) =
  map (fun nc => (fst nc, ffill (bin_means (index f) (snd nc)))) (columns f).
Proof.
  unfold trends_of, fillna_ffill, resample_B_mean. simpl.
  rewrite map_map. reflexivity.
Qed.


(** ** The first bin of a resampled index *)

Module CalendarFacts.

Import Calendar.

Ltac zlia := Z.div_mod_to_equations; lia.

Lemma rollback_business (d : Z) : is_business (rollback d) = true.
Proof.
  unfold rollback. destruct (is_business d) eqn:E; [exact E|].
  unfold is_business, weekday in *. apply Z.ltb_ge in E. apply Z.ltb_lt. zlia.
Qed.

Lemma rollback_le (d : Z) : rollback d <= d.
Proof.
  unfold rollback. destruct (is_business d) eqn:E; [lia|].
  unfold is_business, weekday in *. apply Z.ltb_ge in E. zlia.
Qed.

(** The days skipped by a rollback are weekend days. *)
Lemma rollback_gap (d e : Z) :
  rollback d < e -> e <= d -> is_business e = false.
Proof.
  unfold rollback. destruct (is_business d) eqn:E; [lia|].
  unfold is_business, weekday in *. apply Z.ltb_ge in E.
  intros H1 H2. apply Z.ltb_ge. zlia.
Qed.

Lemma next_bday_gt (d : Z) : d < next_bday d.
Proof.
  unfold next_bday.
  destruct (weekday d =? 4); [lia|]. destruct (weekday d =? 5); lia.
Qed.

Lemma next_bday_business (d : Z) : is_business (next_bday d) = true.
Proof.
  unfold next_bday, is_business, weekday.
  destruct (Z.eqb_spec ((d + 3) mod 7) 4) as [E4|E4];
    [apply Z.ltb_lt; zlia|].
  destruct (Z.eqb_spec ((d + 3) mod 7) 5) as [E5|E5];
    apply Z.ltb_lt; zlia.
Qed.

Lemma list_min_le_acc (ts : list Z) (t : Z) : list_min t ts <= t.
Proof.
  unfold list_min. revert t. induction ts as [|u ts IH]; intros t; simpl; [lia|].
  specialize (IH (Z.min t u)). lia.
Qed.

Lemma list_max_ge_acc (ts : list Z) (t : Z) : t <= list_max t ts.
Proof.
  unfold list_max. revert t. induction ts as [|u ts IH]; intros t; simpl; [lia|].
  specialize (IH (Z.max t u)). lia.
Qed.

Lemma list_min_in (ts : list Z) (t : Z) : In (list_min t ts) (t :: ts).
Proof.
  unfold list_min. revert t. induction ts as [|u ts IH]; intros t; simpl; [auto|].
  specialize (IH (Z.min t u)). destruct IH as [H | H].
  - rewrite <- H. destruct (Z.min_spec t u) as [[_ E] | [_ E]]; rewrite E; auto.
  - right. right. exact H.
Qed.

(** In a run of consecutive days that holds a business day, the business
    days start with the earliest one. *)
Lemma first_business_in_range (first : Z) (n s : nat) :
  (exists d, first + Z.of_nat s <= d < first + Z.of_nat s + Z.of_nat n
             /\ is_business d = true) ->
  exists e rest,
    filter is_business (map (fun i => first + Z.of_nat i) (seq s n)) = e :: rest
    /\ first + Z.of_nat s <= e
    /\ is_business e = true
    /\ forall d, first + Z.of_nat s <= d < e -> is_business d = false.
Proof.
  revert s. induction n as [|n IH]; intros s [d [Hd Hb]]; [lia|].
  simpl. destruct (is_business (first + Z.of_nat s)) eqn:E.
  - exists (first + Z.of_nat s), (filter is_business
      (map (fun i => first + Z.of_nat i) (seq (S s) n))).
    repeat split; [lia | exact E | intros; lia].
  - destruct (IH (S s)) as [e [rest [Heq [Hle [Hbe Hgap]]]]].
    { exists d. split; [|exact Hb].
      assert (d <> first + Z.of_nat s) by (intros ->; congruence). lia. }
    exists e, rest. repeat split; [exact Heq | lia | exact Hbe |].
    intros d' Hd'. destruct (Z.eq_dec d' (first + Z.of_nat s)) as [-> | Hne];
      [exact E | apply Hgap; lia].
Qed.

(** The first bin starts at the business day at or before the earliest
    timestamp and ends after it. *)
Lemma resample_bins_first (t : timestamp) (ts : list timestamp) :
  exists e rest,
    resample_bins (t :: ts) = (rollback (day_of (list_min t ts)), e) :: rest
    /\ day_of (list_min t ts) < e.
Proof.
  unfold resample_bins, bdate_range.
  set (first := rollback (day_of (list_min t ts))).
  set (last := next_bday (day_of (list_max t ts))).
  assert (Hmm : day_of (list_min t ts) <= day_of (list_max t ts)).
  { pose proof (list_min_le_acc ts t). pose proof (list_max_ge_acc ts t).
    unfold day_of, SECONDS_PER_DAY. zlia. }
  assert (Hfl : first < last).
  { pose proof (rollback_le (day_of (list_min t ts))).
    pose proof (next_bday_gt (day_of (list_max t ts))). unfold first, last. lia. }
  replace (Z.to_nat (last - first + 1)) with (S (Z.to_nat (last - first))) by lia.
  assert (Hbf : is_business first = true) by apply rollback_business.
  cbn [seq map]. replace (first + Z.of_nat 0) with first by (simpl; lia).
  cbn [filter]. rewrite Hbf.
  destruct (first_business_in_range first (Z.to_nat (last - first)) 1)
    as [e [rest [Heq [Hle [Hbe Hgap]]]]].
  { exists last. split; [lia | apply next_bday_business]. }
  rewrite Heq. exists e, (bins (e :: rest)). split; [reflexivity|].
  destruct (Z_lt_le_dec (day_of (list_min t ts)) e) as [Hlt | Hge]; [exact Hlt|].
  assert (is_business e = false) as Hn.
  { apply (rollback_gap (day_of (list_min t ts)) e); [fold first; lia | exact Hge]. }
  congruence.
Qed.

Lemma in_first_bin (t : timestamp) (e : Z) :
  day_of t < e -> in_bin (rollback (day_of t), e) t = true.
Proof.
  intros H. pose proof (rollback_le (day_of t)) as Hr.
  unfold in_bin, midnight. simpl. apply andb_true_intro. split.
  - apply Z.leb_le. unfold day_of, SECONDS_PER_DAY in *. zlia.
  - apply Z.ltb_lt. unfold day_of, SECONDS_PER_DAY in *. zlia.
Qed.

End CalendarFacts.

(** ** Completeness of the merged table *)

Lemma no_nulls_spec (c : column) :
  no_nulls c = true <-> forall x, In x c -> exists q, x = Some q.
Proof.
  unfold no_nulls. rewrite forallb_forall. split; intros H x Hx.
  - specialize (H x Hx). destruct x as [q|]; [eauto | discriminate].
  - destruct (H x Hx) as [q ->]. reflexivity.
Qed.

Lemma frame_complete_spec (f : frame) :
  frame_complete f = true <->
  forall n c, In (n, c) (columns f) -> no_nulls c = true.
Proof.
  unfold frame_complete. rewrite forallb_forall. split.
  - intros H n c Hin. apply (H (n, c) Hin).
  - intros H [n c] Hin. apply (H n c Hin).
Qed.

Lemma frame_wf_spec (f : frame) :
  frame_wf f = true <->
  forall n c, In (n, c) (columns f) -> length c = length (index f).
Proof.
  unfold frame_wf. rewrite forallb_forall. split.
  - intros H n c Hin. apply Nat.eqb_eq. apply (H (n, c) Hin).
  - intros H [n c] Hin. apply Nat.eqb_eq. apply (H n c Hin).
Qed.

Lemma in_combine_nth_error {A B : Type} (l : list A) (l' : list B) (i : nat)
    (a : A) (b : B) :
  nth_error l i = Some a -> nth_error l' i = Some b -> In (a, b) (combine l l').
Proof.
  revert l' i. induction l as [|x l IH]; intros [|y l'] [|i]; simpl;
    try discriminate.
  - intros [= ->] [= ->]. left. reflexivity.
  - intros Ha Hb. right. eapply IH; eassumption.
Qed.

(** A bin that holds a timestamp of the index has a mean, when the column
    has no NaN. *)
Lemma mean_of_inhabited_bin (ix : list timestamp) (c : column) (b : Z * Z)
    (t : timestamp) :
  In t ix -> length c = length ix -> no_nulls c = true ->
  Calendar.in_bin b t = true ->
  exists m, mean (bin_cells ix c b) = Some m.
Proof.
  intros Hin Hlen Hc Hb. apply In_nth_error in Hin. destruct Hin as [i Hi].
  assert (Hlt : (i < length c)%nat).
  { rewrite Hlen. apply nth_error_Some. congruence. }
  destruct (nth_error c i) as [x|] eqn:Hx;
    [| apply nth_error_None in Hx; lia].
  destruct (proj1 (no_nulls_spec c) Hc x (nth_error_In _ _ Hx)) as [q ->].
  assert (Hq : In (Some q) (bin_cells ix c b)).
  { unfold bin_cells. apply in_map_iff. exists (t, Some q). split; [reflexivity|].
    apply filter_In. split; [eapply in_combine_nth_error; eassumption | exact Hb]. }
  apply known_nonempty in Hq. unfold mean.
  destruct (known (bin_cells ix c b)); [congruence | eauto].
Qed.

Lemma bin_means_head (t : timestamp) (ts : list timestamp) (c : column) :
  length c = length (t :: ts) -> no_nulls c = true ->
  exists m rest, bin_means (t :: ts) c = Some m :: rest.
Proof.
  intros Hlen Hc. unfold bin_means.
  destruct (CalendarFacts.resample_bins_first t ts) as [e [rest [-> Hlt]]].
  cbn [map].
  destruct (mean_of_inhabited_bin (t :: ts) c
              (Calendar.rollback (Calendar.day_of (Calendar.list_min t ts)), e)
              (Calendar.list_min t ts)) as [m Hm].
  - apply CalendarFacts.list_min_in.
  - exact Hlen.
  - exact Hc.
  - apply CalendarFacts.in_first_bin, Hlt.
  - rewrite Hm. eauto.
Qed.

Lemma no_nulls_ffill_from (v : Q) (c : column) :
  no_nulls (ffill_from (Some v) c) = true.
Proof.
  revert v. induction c as [|[w|] c IH]; intros v; simpl; auto.
Qed.

Lemma no_nulls_ffill_bin_means (ix : list timestamp) (c : column) :
  length c = length ix -> no_nulls c = true ->
  no_nulls (ffill (bin_means ix c)) = true.
Proof.
  intros Hlen Hc. destruct ix as [|t ts]; [reflexivity|].
  destruct (bin_means_head t ts c Hlen Hc) as [m [rest ->]].
  unfold ffill. simpl. apply no_nulls_ffill_from.
Qed.

(** Resampling and filling a complete frame leaves no NaN. *)
Lemma trends_complete (f : frame) :
  frame_wf f = true -> frame_complete f = true ->
  frame_complete (trends_of f) = true.
Proof.
  intros Hwf Hc. apply frame_complete_spec. intros n c Hin.
  rewrite columns_trends_of in Hin. apply in_map_iff in Hin.
  destruct Hin as [[n' c'] [[= <- <-] Hin]].
  apply no_nulls_ffill_bin_means.
  - apply (proj1 (frame_wf_spec f) Hwf n' c' Hin).
  - apply (proj1 (frame_complete_spec f) Hc n' c' Hin).
Qed.

Lemma trends_wf (f : frame) : frame_wf (trends_of f) = true.
Proof.
  apply frame_wf_spec. intros n c Hin. rewrite columns_trends_of in Hin.
  apply in_map_iff in Hin. destruct Hin as [[n' c'] [[= <- <-] _]].
  unfold ffill. rewrite length_ffill_from. unfold bin_means.
  simpl. rewrite !length_map. reflexivity.
Qed.

Lemma join_indexers_bounds (l r : list timestamp) (i j : nat) :
  In (i, j) (join_indexers l r) -> (i < length l)%nat /\ (j < length r)%nat.
Proof.
  intros H. apply in_join_indexers in H. destruct H as [t [Hl Hr]].
  split; apply nth_error_Some; congruence.
Qed.

Lemma no_nulls_take_cells (ix : list nat) (c : column) :
  no_nulls c = true -> (forall i, In i ix -> (i < length c)%nat) ->
  no_nulls (take_cells ix c) = true.
Proof.
  intros Hc Hix. apply no_nulls_spec. intros x Hx. unfold take_cells in Hx.
  apply in_map_iff in Hx. destruct Hx as [i [<- Hi]].
  apply (proj1 (no_nulls_spec c) Hc). apply nth_In. auto.
Qed.

(** The join of two complete sides is complete. *)
Lemma merge_complete (left : frame) (right : series) :
  frame_wf left = true -> frame_complete left = true ->
  series_wf right = true -> series_complete right = true ->
  frame_complete (merge left right) = true.
Proof.
  intros Hwf Hc Hrwf Hrc. apply frame_complete_spec. intros n c Hin.
  unfold merge in Hin. simpl in Hin. apply in_app_or in Hin.
  destruct Hin as [Hin | [Hin | []]].
  - apply in_map_iff in Hin. destruct Hin as [[n' c'] [[= _ <-] Hin]].
    apply no_nulls_take_cells.
    + apply (proj1 (frame_complete_spec left) Hc n' c' Hin).
    + intros i Hi. apply in_map_iff in Hi. destruct Hi as [[i' j] [<- Hi]].
      apply join_indexers_bounds in Hi.
      rewrite (proj1 (frame_wf_spec left) Hwf n' c' Hin). tauto.
  - injection Hin as _ <-. apply no_nulls_take_cells; [exact Hrc|].
    intros j Hj. apply in_map_iff in Hj. destruct Hj as [[i j'] [<- Hj]].
    apply join_indexers_bounds in Hj. apply Nat.eqb_eq in Hrwf.
    rewrite Hrwf. tauto.
Qed.

Lemma rename_complete (old new : string) (f : frame) :
  frame_complete (rename_columns old new f) = frame_complete f.
Proof.
  unfold frame_complete, rename_columns. simpl.
  induction (columns f) as [|[n c] cols IH]; simpl; [reflexivity|].
  rewrite IH. reflexivity.
Qed.

(** C4: when the fetched series hold a number at every point, the merged
    table has no null cell, in an interest column or in the price column,
    and every timestamp it keeps is a timestamp of the price series. *)
Theorem merged_table_has_no_nulls (interest_over_time_df : frame) (close : series)
    (Hwf : frame_wf interest_over_time_df = true)
    (Hnum : frame_complete interest_over_time_df = true)
    (Hcwf : series_wf close = true)
    (Hcnum : series_complete close = true) :
  frame_complete (merged_of interest_over_time_df close) = true
  /\ forall t, In t (index (merged_of interest_over_time_df close)) ->
               In t (sindex close).
Proof.
  split.
  - unfold merged_of. rewrite rename_complete. apply merge_complete.
    + apply trends_wf.
    + apply trends_complete; assumption.
    + exact Hcwf.
    + exact Hcnum.
  - intros t Ht. rewrite index_merged_of in Ht. apply in_joined_index in Ht.
    tauto.
Qed.

(** ** Welford's sums on degenerate data *)

Lemma inject_nat_succ_nonzero (n : nat) : ~ (inject_Z (Z.of_nat (S n)) == 0)%Q.
Proof. unfold Qeq. simpl. lia. Qed.

(** Once the running mean equals the constant, the sum of squared
    deviations stays zero. *)
Lemma welford_x_constant (v : Q) (rows : list (Q * Q)) :
  (forall p, In p rows -> (fst p == v)%Q) ->
  forall w : welford,
    (ssqdm_x w == 0)%Q ->
    (nobs w = 0%nat -> (meanx w == 0)%Q) ->
    (nobs w <> 0%nat -> (meanx w == v)%Q) ->
    (ssqdm_x (fold_left welford_step rows w) == 0)%Q.
Proof.
  induction rows as [|[vx vy] rows IH]; intros Hv w Hs H0 H1; [exact Hs|].
  assert (Hvx : (vx == v)%Q) by (apply (Hv (vx, vy)); left; reflexivity).
  assert (Hrest : forall p, In p rows -> (fst p == v)%Q)
    by (intros p Hp; apply Hv; right; exact Hp).
  assert (Hm : (meanx (welford_step w (vx, vy)) == v)%Q).
  { destruct w as [n mx my sx sy c]. simpl in *. destruct n as [|n].
    - rewrite (H0 eq_refl), Hvx. change (inject_Z (Z.of_nat 1)) with 1%Q. field.
    - rewrite (H1 ltac:(discriminate)), Hvx. field.
      apply (inject_nat_succ_nonzero (S n)). }
  simpl. apply IH; [exact Hrest | | discriminate | intros _; exact Hm].
  destruct w as [n mx my sx sy c]. simpl in *. rewrite Hm, Hs, Hvx. ring.
Qed.

Lemma welford_y_constant (v : Q) (rows : list (Q * Q)) :
  (forall p, In p rows -> (snd p == v)%Q) ->
  forall w : welford,
    (ssqdm_y w == 0)%Q ->
    (nobs w = 0%nat -> (meany w == 0)%Q) ->
    (nobs w <> 0%nat -> (meany w == v)%Q) ->
    (ssqdm_y (fold_left welford_step rows w) == 0)%Q.
Proof.
  induction rows as [|[vx vy] rows IH]; intros Hv w Hs H0 H1; [exact Hs|].
  assert (Hvy : (vy == v)%Q) by (apply (Hv (vx, vy)); left; reflexivity).
  assert (Hrest : forall p, In p rows -> (snd p == v)%Q)
    by (intros p Hp; apply Hv; right; exact Hp).
  assert (Hm : (meany (welford_step w (vx, vy)) == v)%Q).
  { destruct w as [n mx my sx sy c]. simpl in *. destruct n as [|n].
    - rewrite (H0 eq_refl), Hvy. change (inject_Z (Z.of_nat 1)) with 1%Q. field.
    - rewrite (H1 ltac:(discriminate)), Hvy. field.
      apply (inject_nat_succ_nonzero (S n)). }
  simpl. apply IH; [exact Hrest | | discriminate | intros _; exact Hm].
  destruct w as [n mx my sx sy c]. simpl in *. rewrite Hm, Hs, Hvy. ring.
Qed.

Lemma corr_over_zero_divisor (rows : list (Q * Q)) :
  (ssqdm_x (welford_of rows) * ssqdm_y (welford_of rows) == 0)%Q ->
  corr_over rows = CorrNaN.
Proof.
  intros H. unfold corr_over.
  destruct (nobs (welford_of rows) <? min_periods)%nat; [reflexivity|].
  apply Qeq_bool_iff in H. cbv zeta. rewrite H. reflexivity.
Qed.

Lemma corr_over_constant_fst (v : Q) (rows : list (Q * Q)) :
  (forall p, In p rows -> (fst p == v)%Q) -> corr_over rows = CorrNaN.
Proof.
  intros Hv. apply corr_over_zero_divisor.
  rewrite (welford_x_constant v rows Hv welford_init); simpl;
    [ring | reflexivity | reflexivity | congruence].
Qed.

Lemma corr_over_constant_snd (v : Q) (rows : list (Q * Q)) :
  (forall p, In p rows -> (snd p == v)%Q) -> corr_over rows = CorrNaN.
Proof.
  intros Hv. apply corr_over_zero_divisor.
  rewrite (welford_y_constant v rows Hv welford_init); simpl;
    [ring | reflexivity | reflexivity | congruence].
Qed.

(** Fewer than two rows: no row, or one row whose deviation is zero. *)
Lemma corr_over_short (rows : list (Q * Q)) :
  (length rows < 2)%nat -> corr_over rows = CorrNaN.
Proof.
  destruct rows as [|[vx vy] [|p rows]]; simpl; intros H; try lia.
  - reflexivity.
  - apply (corr_over_constant_fst vx). intros p [<- | []]. reflexivity.
Qed.

Lemma in_complete_pairs (x y : column) (p : Q * Q) :
  In p (complete_pairs x y) -> In (fst p) (known x) /\ In (snd p) (known y).
Proof.
  revert y. induction x as [|[vx|] x IH]; intros [|[vy|] y]; simpl;
    try contradiction; intros H.
  - destruct H as [<- | H]; simpl; [tauto|]. destruct (IH _ H). tauto.
  - apply IH in H. tauto.
  - apply IH in H. tauto.
  - apply IH in H. tauto.
Qed.

Lemma constant_column_known (c : column) :
  constant_column c = true ->
  exists v, forall q, In q (known c) -> (q == v)%Q.
Proof.
  unfold constant_column. destruct (known c) as [|v rest].
  - intros _. exists 0%Q. intros q [].
  - intros H. exists v. intros q [<- | Hq]; [reflexivity|].
    rewrite forallb_forall in H. symmetry. apply Qeq_bool_iff. apply H, Hq.
Qed.

Lemma pair_corr_constant_l (x y : column) :
  constant_column x = true -> pair_corr x y = CorrNaN.
Proof.
  intros H. destruct (constant_column_known x H) as [v Hv].
  apply (corr_over_constant_fst v). intros p Hp.
  apply in_complete_pairs in Hp. apply Hv. tauto.
Qed.

Lemma pair_corr_constant_r (x y : column) :
  constant_column y = true -> pair_corr x y = CorrNaN.
Proof.
  intros H. destruct (constant_column_known y H) as [v Hv].
  apply (corr_over_constant_snd v). intros p Hp.
  apply in_complete_pairs in Hp. apply Hv. tauto.
Qed.

(** ** Reading the correlation matrix *)

Lemma nth_map_seq {A : Type} (g : nat -> A) (n i : nat) (d : A) :
  (i < n)%nat -> nth i (map g (seq 0 n)) d = g i.
Proof.
  intros H. rewrite (nth_indep _ d (g 0%nat)) by (rewrite length_map, length_seq; exact H).
  rewrite map_nth, seq_nth by exact H. reflexivity.
Qed.

Lemma position_spec (name : string) (names : list string) (i : nat) :
  position name names = Some i ->
  (i < length names)%nat /\ nth_error names i = Some name.
Proof.
  revert i. induction names as [|n names IH]; intros i; simpl; [discriminate|].
  destruct (String.eqb_spec n name) as [-> | Hne].
  - intros [= <-]. simpl. split; [lia | reflexivity].
  - destruct (position name names) as [j|]; simpl; [|discriminate].
    intros [= <-]. destruct (IH j eq_refl). simpl. split; [lia | assumption].
Qed.

Lemma position_of_member (name : string) (names : list string) :
  In name names -> exists i, position name names = Some i.
Proof.
  induction names as [|n names IH]; simpl; [contradiction|].
  intros H. destruct (String.eqb_spec n name) as [-> | Hne]; [eauto|].
  destruct H as [H | H]; [contradiction|].
  destruct (IH H) as [i ->]. simpl. eauto.
Qed.

(** [df[name]] is the column at the position of the label. *)
Lemma lookup_column_position (name : string) (cols : list (string * column)) :
  lookup_column name cols =
  match position name (map fst cols) with
  | Some i => nth_error (map snd cols) i
  | None => None
  end.
Proof.
  induction cols as [|[n c] cols IH]; simpl; [reflexivity|].
  destruct (String.eqb n name); [reflexivity|].
  rewrite IH. destruct (position name (map fst cols)); reflexivity.
Qed.

Lemma matrix_getitem_corr (f : frame) (col row : string) (c r : nat) :
  position col (column_names f) = Some c ->
  position row (column_names f) = Some r ->
  matrix_getitem (corr f) col row =
  Some (if (c <=? r)%nat
        then pair_corr (nth r (map snd (columns f)) []) (nth c (map snd (columns f)) [])
        else pair_corr (nth c (map snd (columns f)) []) (nth r (map snd (columns f)) [])).
Proof.
  intros Hc Hr. unfold matrix_getitem, corr. simpl. rewrite Hc, Hr.
  apply position_spec in Hc, Hr. destruct Hc as [Hc _], Hr as [Hr _].
  unfold column_names in Hc, Hr. rewrite length_map in Hc, Hr.
  unfold nancorr. rewrite length_map.
  rewrite (nth_map_seq _ _ r) by exact Hr.
  rewrite (nth_map_seq _ _ c) by exact Hc. reflexivity.
Qed.

(** C8: in a table that holds a column of zero variance, the correlation
    matrix carries the NaN marker, never a number, at every entry that
    involves the column: in its own row, in its own column, and so on the
    diagonal and against another constant column. *)
Theorem zero_variance_entries_undefined (f : frame) (a b : string) (c : column)
    (Ha : lookup_column a (columns f) = Some c)
    (Hconst : constant_column c = true)
    (Hb : In b (column_names f)) :
  matrix_getitem (corr f) a b = Some CorrNaN
  /\ matrix_getitem (corr f) b a = Some CorrNaN.
Proof.
  rewrite lookup_column_position in Ha. fold (column_names f) in Ha.
  destruct (position a (column_names f)) as [ia|] eqn:Hia; [|discriminate].
  destruct (position_of_member b (column_names f) Hb) as [ib Hib].
  apply (nth_error_nth_eq _ _ _ []) in Ha.
  rewrite (matrix_getitem_corr f a b ia ib Hia Hib).
  rewrite (matrix_getitem_corr f b a ib ia Hib Hia).
  subst c. split.
  - destruct (ia <=? ib)%nat;
      [rewrite pair_corr_constant_r | rewrite pair_corr_constant_l];
      solve [reflexivity | exact Hconst].
  - destruct (ib <=? ia)%nat;
      [rewrite pair_corr_constant_l | rewrite pair_corr_constant_r];
      solve [reflexivity | exact Hconst].
Qed.

(** ** The heap during the lag analysis *)

Lemma read_frame_at (h : heap) (l : loc) (f : frame) :
  nth_error h l = Some f -> read_frame l h = Ok f h.
Proof. intros H. unfold read_frame. rewrite H. reflexivity. Qed.

Lemma nth_error_new (h : heap) (f : frame) :
  nth_error (h ++ [f]) (length h) = Some f.
Proof.
  rewrite nth_error_app2 by lia. rewrite Nat.sub_diag. reflexivity.
Qed.

Lemma nth_error_grow (h extra : heap) (l : loc) (f : frame) :
  nth_error h l = Some f -> nth_error (h ++ extra) l = Some f.
Proof.
  intros H. rewrite nth_error_app1; [exact H|].
  apply nth_error_Some. congruence.
Qed.

Lemma heap_set_new (h : heap) (f g : frame) :
  heap_set (length h) g (h ++ [f]) = h ++ [g].
Proof.
  induction h as [|a h IH]; simpl; [reflexivity|]. rewrite IH. reflexivity.
Qed.

Lemma lookup_set_column (name : string) (c : column) (cols : list (string * column)) :
  lookup_column name (set_column name c cols) = Some c.
Proof.
  induction cols as [|[n old] cols IH]; simpl.
  - rewrite String.eqb_refl. reflexivity.
  - destruct (String.eqb n name) eqn:E; simpl; rewrite E; [reflexivity | exact IH].
Qed.

(** One round of the inner loop: it allocates one copy, shifts the column in
    the copy, and reads the coefficient off the copy's matrix. *)
Lemma lag_corr_of_run (h : heap) (merged_df : loc) (f : frame) (kw : string)
    (k : nat) :
  nth_error h merged_df = Some f ->
  lag_corr_of merged_df kw k h =
  match shifted_copy f kw k with
  | Some g =>
      match matrix_getitem (corr g) kw "Oil Price" with
      | Some v => Ok v (h ++ [g])
      | None => Raised "KeyError"
      end
  | None => Raised "KeyError"
  end.
Proof.
  intros Hf. unfold lag_corr_of, df_copy, df_getitem, df_setitem, df_corr, bind.
  rewrite (read_frame_at h merged_df f Hf). unfold new_frame.
  rewrite (read_frame_at (h ++ [f]) (length h) f (nth_error_new h f)).
  unfold shifted_copy. destruct (lookup_column kw (columns f)) as [x|]; simpl;
    [|reflexivity].
  rewrite (read_frame_at (h ++ [f]) (length h) f (nth_error_new h f)).
  unfold write_frame. rewrite heap_set_new.
  rewrite (read_frame_at _ _ _ (nth_error_new h _)). unfold ret.
  destruct (matrix_getitem _ kw "Oil Price"); reflexivity.
Qed.

Lemma lags_run (ks : list nat) (h : heap) (merged_df : loc) (f : frame)
    (kw : string) :
  nth_error h merged_df = Some f ->
  for_each ks (lag_corr_of merged_df kw) h =
  match lag_values f kw ks with
  | Some vs => Ok vs (h ++ copies_of_keyword f kw ks)
  | None => Raised "KeyError"
  end.
Proof.
  revert h. induction ks as [|k ks IH]; intros h Hf; simpl.
  - unfold ret. rewrite app_nil_r. reflexivity.
  - unfold bind at 1. rewrite (lag_corr_of_run h merged_df f kw k Hf).
    unfold lag_value. destruct (shifted_copy f kw k) as [g|]; [|reflexivity].
    destruct (matrix_getitem (corr g) kw "Oil Price") as [v|]; [|reflexivity].
    unfold bind. rewrite (IH (h ++ [g]) (nth_error_grow h [g] _ _ Hf)).
    destruct (lag_values f kw ks) as [vs|]; [|reflexivity].
    unfold ret. simpl. rewrite <- app_assoc. reflexivity.
Qed.

Lemma lag_loop_run (keywords : list string) (h : heap) (merged_df : loc)
    (f : frame) (acc : list (string * list corr_value)) :
  nth_error h merged_df = Some f ->
  lag_loop merged_df keywords acc h =
  match lag_results_of f keywords acc with
  | Some r => Ok r (h ++ lag_copies f keywords)
  | None => Raised "KeyError"
  end.
Proof.
  revert h acc. induction keywords as [|kw kws IH]; intros h acc Hf;
    cbn [lag_loop lag_results_of].
  - unfold ret, lag_copies. simpl. rewrite app_nil_r. reflexivity.
  - unfold bind, lags_of. rewrite (lags_run (seq 1 7) h merged_df f kw Hf).
    destruct (lag_values f kw (seq 1 7)) as [lags|]; [|reflexivity].
    rewrite (IH _ _ (nth_error_grow h _ _ _ Hf)).
    destruct (lag_results_of f kws (dict_set kw lags acc)); [|reflexivity].
    unfold lag_copies. cbn [flat_map]. rewrite <- app_assoc. reflexivity.
Qed.

(** C9: the lag analysis never writes to the merged table.  Every round
    allocates a fresh copy and shifts the column there, so the frame at
    [merged_df] is the same before and after the whole analysis, the heap
    only grows by the copies, and the value of lag [k] is computed from the
    original column shifted by [k], not from the column of the previous
    round. *)
Theorem lag_analysis_works_on_copies (h : heap) (merged_df : loc) (f : frame)
    (keywords : list string)
    (Hf : nth_error h merged_df = Some f) :
  lag_loop merged_df keywords [] h =
    match lag_results_of f keywords [] with
    | Some r => Ok r (h ++ lag_copies f keywords)
    | None => Raised "KeyError"
    end
  /\ nth_error (h ++ lag_copies f keywords) merged_df = Some f
  /\ forall kw k x,
       lookup_column kw (columns f) = Some x ->
       exists g, shifted_copy f kw k = Some g
                 /\ index g = index f
                 /\ lookup_column kw (columns g) = Some (shift k x).
Proof.
  split; [apply lag_loop_run, Hf|].
  split; [apply nth_error_grow, Hf|].
  intros kw k x Hx. unfold shifted_copy. rewrite Hx.
  eexists. split; [reflexivity|]. split; [reflexivity|].
  simpl. apply lookup_set_column.
Qed.

(** ** Shifted columns and the rows of a lag *)

Lemma length_shift (k : nat) (c : column) : length (shift k c) = length c.
Proof.
  unfold shift. rewrite length_app, repeat_length, length_firstn. lia.
Qed.

Lemma nth_shift (k : nat) (c : column) (i : nat) :
  (i < length c)%nat ->
  nth i (shift k c) None = if (i <? k)%nat then None else nth (i - k) c None.
Proof.
  intros Hi. unfold shift. destruct (Nat.ltb_spec i k) as [Hlt | Hge].
  - rewrite app_nth1 by (rewrite repeat_length; lia). apply nth_repeat.
  - rewrite app_nth2 by (rewrite repeat_length; lia).
    rewrite repeat_length. replace (Nat.min k (length c)) with k by lia.
    rewrite nth_firstn. destruct (Nat.ltb_spec (i - k) (length c - k)); [reflexivity | lia].
Qed.

Lemma complete_pairs_nil_r (x : column) : complete_pairs x [] = [].
Proof. destruct x as [|[v|] x]; reflexivity. Qed.

Lemma complete_pairs_skip (m : nat) (a y : column) :
  complete_pairs (repeat None m ++ a) y = complete_pairs a (skipn m y).
Proof.
  revert y. induction m as [|m IH]; intros y; simpl; [reflexivity|].
  destruct y as [|v y]; [symmetry; apply complete_pairs_nil_r | apply IH].
Qed.

Lemma complete_pairs_swap (x y : column) :
  complete_pairs y x = map swap (complete_pairs x y).
Proof.
  revert y. induction x as [|[vx|] x IH]; intros [|[vy|] y]; simpl;
    try reflexivity; try apply IH.
  rewrite IH. reflexivity.
Qed.

Lemma no_nulls_cons (v : cell) (c : column) :
  no_nulls (v :: c) = true -> (exists q, v = Some q) /\ no_nulls c = true.
Proof.
  unfold no_nulls. simpl. intros H. apply andb_prop in H. destruct H as [Hv Hc].
  destruct v as [q|]; [eauto | discriminate].
Qed.

Lemma complete_pairs_no_nulls (a b : column) :
  no_nulls a = true -> no_nulls b = true ->
  complete_pairs a b = combine (known a) (known b).
Proof.
  revert b. induction a as [|va a IH]; intros [|vb b] Ha Hb; simpl; try reflexivity.
  - apply no_nulls_cons in Ha. destruct Ha as [[q ->] _]. simpl.
    destruct (known a); reflexivity.
  - apply no_nulls_cons in Ha, Hb. destruct Ha as [[qa ->] Ha], Hb as [[qb ->] Hb].
    simpl. rewrite IH by assumption. reflexivity.
Qed.

Lemma length_known_no_nulls (c : column) :
  no_nulls c = true -> length (known c) = length c.
Proof.
  induction c as [|v c IH]; intros H; [reflexivity|].
  apply no_nulls_cons in H. destruct H as [[q ->] H]. simpl. rewrite IH; auto.
Qed.

Lemma no_nulls_firstn (n : nat) (c : column) :
  no_nulls c = true -> no_nulls (firstn n c) = true.
Proof.
  intros H. apply no_nulls_spec. intros x Hx.
  apply (proj1 (no_nulls_spec c) H). rewrite <- (firstn_skipn n c).
  apply in_or_app. left. exact Hx.
Qed.

Lemma no_nulls_skipn (n : nat) (c : column) :
  no_nulls c = true -> no_nulls (skipn n c) = true.
Proof.
  intros H. apply no_nulls_spec. intros x Hx.
  apply (proj1 (no_nulls_spec c) H). rewrite <- (firstn_skipn n c).
  apply in_or_app. right. exact Hx.
Qed.

Lemma lagged_rows_skip (k : nat) (x y : column) :
  length x = length y ->
  lagged_rows k x y = complete_pairs (firstn (length x - k) x) (skipn k y).
Proof.
  intros Hlen. unfold lagged_rows, shift. rewrite complete_pairs_skip.
  destruct (Nat.le_gt_cases k (length x)) as [Hle | Hgt].
  - replace (Nat.min k (length x)) with k by lia. reflexivity.
  - replace (length x - k)%nat with 0%nat by lia. reflexivity.
Qed.

Lemma length_lagged_rows (k : nat) (x y : column) :
  length x = length y -> no_nulls x = true -> no_nulls y = true ->
  length (lagged_rows k x y) = (length x - k)%nat.
Proof.
  intros Hlen Hx Hy. rewrite lagged_rows_skip by exact Hlen.
  rewrite complete_pairs_no_nulls
    by (apply no_nulls_firstn || apply no_nulls_skipn; assumption).
  rewrite length_combine, !length_known_no_nulls
    by (apply no_nulls_firstn || apply no_nulls_skipn; assumption).
  rewrite length_firstn, length_skipn. lia.
Qed.

Lemma lagged_rows_beyond (k : nat) (x y : column) :
  (length x <= k)%nat -> lagged_rows k x y = [].
Proof.
  intros H. unfold lagged_rows, shift. rewrite complete_pairs_skip.
  replace (length x - k)%nat with 0%nat by lia. reflexivity.
Qed.

Lemma names_set_column (kw : string) (c : column) (cols : list (string * column))
    (i : nat) :
  position kw (map fst cols) = Some i ->
  map fst (set_column kw c cols) = map fst cols.
Proof.
  revert i. induction cols as [|[n old] cols IH]; intros i; simpl; [discriminate|].
  destruct (String.eqb n kw); [reflexivity|].
  destruct (position kw (map fst cols)) as [j|]; simpl; [|discriminate].
  intros _. rewrite (IH j eq_refl). reflexivity.
Qed.

Lemma data_set_column (kw : string) (c : column) (cols : list (string * column))
    (i j : nat) :
  position kw (map fst cols) = Some i ->
  nth j (map snd (set_column kw c cols)) [] =
  if (j =? i)%nat then c else nth j (map snd cols) [].
Proof.
  revert i j. induction cols as [|[n old] cols IH]; intros i j; simpl;
    [discriminate|].
  destruct (String.eqb n kw).
  - intros [= <-]. destruct j; reflexivity.
  - destruct (position kw (map fst cols)) as [i'|]; simpl; [|discriminate].
    intros [= <-]. destruct j as [|j]; [reflexivity|]. simpl.
    apply (IH i' j eq_refl).
Qed.

Lemma nth_column (cols : list (string * column)) (i : nat) (c : column) :
  nth_error (map snd cols) i = Some c -> nth i (map snd cols) [] = c.
Proof. apply nth_error_nth_eq. Qed.

Section LagOfOneKeyword.

Variables (f : frame) (kw : string) (x y : column) (ckw cprice : nat).

Hypothesis Hkw : position kw (column_names f) = Some ckw.
Hypothesis Hprice : position "Oil Price" (column_names f) = Some cprice.
Hypothesis Hne : ckw <> cprice.
Hypothesis Hx : nth_error (map snd (columns f)) ckw = Some x.
Hypothesis Hy : nth_error (map snd (columns f)) cprice = Some y.

Lemma lag_value_rows (k : nat) :
  lag_value f kw k = Some (lag_entry ckw cprice (lagged_rows k x y)).
Proof.
  unfold lag_value, shifted_copy. rewrite lookup_column_position.
  fold (column_names f). rewrite Hkw, Hx.
  rewrite (matrix_getitem_corr _ kw "Oil Price" ckw cprice);
    unfold column_names; simpl;
    try (rewrite (names_set_column kw _ (columns f) ckw Hkw); assumption).
  rewrite !(data_set_column kw _ (columns f) ckw _ Hkw).
  rewrite Nat.eqb_refl. destruct (Nat.eqb_spec cprice ckw) as [E | _]; [congruence|].
  rewrite (nth_column _ _ _ Hy).
  unfold lag_entry, pair_corr, lagged_rows.
  rewrite (complete_pairs_swap (shift k x) y). reflexivity.
Qed.

Lemma lag_values_rows (ks : list nat) :
  lag_values f kw ks =
  Some (map (fun k => lag_entry ckw cprice (lagged_rows k x y)) ks).
Proof.
  induction ks as [|k ks IH]; simpl; [reflexivity|].
  rewrite lag_value_rows, IH. reflexivity.
Qed.

Lemma lags_of_rows (h : heap) (merged_df : loc) :
  nth_error h merged_df = Some f ->
  lags_of merged_df kw h =
  Ok (map (fun k => lag_entry ckw cprice (lagged_rows k x y)) (seq 1 7))
     (h ++ copies_of_keyword f kw (seq 1 7)).
Proof.
  intros Hf. unfold lags_of. rewrite (lags_run _ h merged_df f kw Hf).
  rewrite lag_values_rows. reflexivity.
Qed.

End LagOfOneKeyword.

(** ** What the loop computes *)

Section WelfordIsPearson.

Local Open Scope Q_scope.

Lemma inject_succ (n : nat) :
  inject_Z (Z.of_nat (S n)) == inject_Z (Z.of_nat n) + 1.
Proof. rewrite Nat2Z.inj_succ. unfold Z.succ. rewrite inject_Z_plus. reflexivity. Qed.

(** A sum of products of deviations, in plain sums. *)
Lemma deviation_products_expand (f g : Q * Q -> Q) (mf mg : Q) (rows : list (Q * Q)) :
  deviation_products f g mf mg rows ==
  Qsum (map (fun p => f p * g p) rows) - mf * Qsum (map g rows)
  - mg * Qsum (map f rows) + inject_Z (Z.of_nat (length rows)) * mf * mg.
Proof.
  unfold deviation_products, Qsum. induction rows as [|p rows IH].
  - simpl. ring.
  - cbn [map fold_right length]. rewrite IH, inject_succ. ring.
Qed.

(** One round of the loop keeps the running sums in step with the plain
    sums. *)
Lemma raw_sums_step (w : welford) (vx vy Sx Sy Sxx Syy Sxy : Q) :
  raw_sums_ok w Sx Sy Sxx Syy Sxy ->
  raw_sums_ok (welford_step w (vx, vy)) (Sx + vx) (Sy + vy) (Sxx + vx * vx)
              (Syy + vy * vy) (Sxy + vx * vy).
Proof.
  destruct w as [n mx my sx sy c]. unfold raw_sums_ok, welford_step.
  cbn [nobs meanx meany ssqdm_x ssqdm_y covxy fst snd].
  intros [Hx [Hy [Hsx [Hsy Hc]]]].
  pose proof (inject_nat_succ_nonzero n) as HN. pose proof (inject_succ n) as HS.
  set (N := inject_Z (Z.of_nat (S n))) in *. set (k := inject_Z (Z.of_nat n)) in *.
  assert (Hk : k == N - 1) by (rewrite HS; ring).
  rewrite Hsx, Hsy, Hc. rewrite <- Hx, <- Hy. rewrite Hk.
  repeat split; field; exact HN.
Qed.

Lemma raw_sums_equiv (w : welford) (Sx Sy Sxx Syy Sxy Sx' Sy' Sxx' Syy' Sxy' : Q) :
  Sx == Sx' -> Sy == Sy' -> Sxx == Sxx' -> Syy == Syy' -> Sxy == Sxy' ->
  raw_sums_ok w Sx Sy Sxx Syy Sxy -> raw_sums_ok w Sx' Sy' Sxx' Syy' Sxy'.
Proof.
  unfold raw_sums_ok. intros E1 E2 E3 E4 E5. rewrite E1, E2, E3, E4, E5. tauto.
Qed.

Lemma raw_sums_fold (rows : list (Q * Q)) :
  forall (w : welford) (Sx Sy Sxx Syy Sxy : Q),
    raw_sums_ok w Sx Sy Sxx Syy Sxy ->
    raw_sums_ok (fold_left welford_step rows w)
      (Sx + Qsum (map fst rows)) (Sy + Qsum (map snd rows))
      (Sxx + Qsum (map (fun p => fst p * fst p) rows))
      (Syy + Qsum (map (fun p => snd p * snd p) rows))
      (Sxy + Qsum (map (fun p => fst p * snd p) rows)).
Proof.
  induction rows as [|[vx vy] rows IH]; intros w Sx Sy Sxx Syy Sxy H.
  - simpl. revert H. apply raw_sums_equiv; ring.
  - cbn [fold_left]. apply raw_sums_step with (vx := vx) (vy := vy) in H.
    apply IH in H. revert H.
    apply raw_sums_equiv; unfold Qsum; cbn [map fold_right fst snd]; ring.
Qed.

Lemma nobs_fold (rows : list (Q * Q)) (w : welford) :
  nobs (fold_left welford_step rows w) = (nobs w + length rows)%nat.
Proof.
  revert w. induction rows as [|p rows IH]; intros w; simpl; [lia|].
  rewrite IH. simpl. lia.
Qed.

(** The coefficient the loop returns over a list of rows is Pearson's
    coefficient of the rows: the same product sum, the same divisor, NaN in
    the same cases. *)
Lemma welford_is_pearson (rows : list (Q * Q)) :
  corr_same (corr_over rows) (pearson_r rows).
Proof.
  destruct rows as [|p rows']; [exact I|].
  set (rows := p :: rows').
  assert (Hn : nobs (welford_of rows) = length rows)
    by (unfold welford_of; rewrite nobs_fold; reflexivity).
  assert (H : raw_sums_ok (welford_of rows)
                (0 + Qsum (map fst rows)) (0 + Qsum (map snd rows))
                (0 + Qsum (map (fun p => fst p * fst p) rows))
                (0 + Qsum (map (fun p => snd p * snd p) rows))
                (0 + Qsum (map (fun p => fst p * snd p) rows))).
  { apply raw_sums_fold. unfold raw_sums_ok, welford_init. simpl.
    repeat split; ring. }
  destruct H as [Hx [Hy [Hsx [Hsy Hc]]]]. rewrite Hn in Hx, Hy.
  assert (HN : ~ inject_Z (Z.of_nat (length rows)) == 0)
    by (apply (inject_nat_succ_nonzero (length rows'))).
  set (N := inject_Z (Z.of_nat (length rows))) in *.
  assert (Emx : meanx (welford_of rows) == Qsum (map fst rows) / N)
    by (rewrite <- (Qplus_0_l (Qsum (map fst rows))), <- Hx; field; exact HN).
  assert (Emy : meany (welford_of rows) == Qsum (map snd rows) / N)
    by (rewrite <- (Qplus_0_l (Qsum (map snd rows))), <- Hy; field; exact HN).
  assert (Exx : ssqdm_x (welford_of rows) ==
                deviation_products fst fst (average (map fst rows))
                  (average (map fst rows)) rows).
  { rewrite deviation_products_expand, Hsx, Emx. unfold average.
    rewrite length_map. fold N. field. exact HN. }
  assert (Eyy : ssqdm_y (welford_of rows) ==
                deviation_products snd snd (average (map snd rows))
                  (average (map snd rows)) rows).
  { rewrite deviation_products_expand, Hsy, Emy. unfold average.
    rewrite length_map. fold N. field. exact HN. }
  assert (Exy : covxy (welford_of rows) ==
                deviation_products fst snd (average (map fst rows))
                  (average (map snd rows)) rows).
  { rewrite deviation_products_expand, Hc, Emx. unfold average.
    rewrite !length_map. fold N. field. exact HN. }
  unfold corr_over, pearson_r. fold rows. rewrite Hn.
  change (length rows <? min_periods)%nat with false. cbv zeta.
  assert (Ed : ssqdm_x (welford_of rows) * ssqdm_y (welford_of rows) ==
               deviation_products fst fst (average (map fst rows))
                 (average (map fst rows)) rows
               * deviation_products snd snd (average (map snd rows))
                   (average (map snd rows)) rows)
    by (rewrite Exx, Eyy; reflexivity).
  destruct (Qeq_bool (ssqdm_x (welford_of rows) * ssqdm_y (welford_of rows)) 0) eqn:E1.
  - apply Qeq_bool_iff in E1. rewrite Ed in E1. apply Qeq_bool_iff in E1.
    rewrite E1. exact I.
  - destruct (Qeq_bool (deviation_products fst fst _ _ rows
                        * deviation_products snd snd _ _ rows) 0) eqn:E2.
    + apply Qeq_bool_iff in E2. rewrite <- Ed in E2. apply Qeq_bool_iff in E2.
      congruence.
    + cbn [corr_same]. split; [exact Exy | exact Ed].
Qed.

(** Running the loop on the swapped rows swaps the means and the sums of
    squares and keeps the product sum. *)
Lemma welford_swap (rows : list (Q * Q)) :
  forall w w' : welford,
    nobs w' = nobs w -> meanx w' = meany w -> meany w' = meanx w ->
    ssqdm_x w' = ssqdm_y w -> ssqdm_y w' = ssqdm_x w -> covxy w' == covxy w ->
    let u := fold_left welford_step rows w in
    let u' := fold_left welford_step (map swap rows) w' in
    nobs u' = nobs u /\ ssqdm_x u' = ssqdm_y u /\ ssqdm_y u' = ssqdm_x u
    /\ covxy u' == covxy u.
Proof.
  induction rows as [|[vx vy] rows IH]; intros w w' Hn Hmx Hmy Hsx Hsy Hc;
    [repeat split; assumption|].
  simpl. destruct w as [n mx my sx sy c], w' as [n' mx' my' sx' sy' c'].
  simpl in *. subst n' mx' my' sx' sy'. apply IH; simpl; try reflexivity.
  rewrite Hc. field. apply (inject_nat_succ_nonzero n).
Qed.

Lemma corr_over_swap (rows : list (Q * Q)) :
  corr_same (corr_over (map swap rows)) (corr_over rows).
Proof.
  destruct (welford_swap rows welford_init welford_init eq_refl eq_refl eq_refl
              eq_refl eq_refl (Qeq_refl _)) as [Hn [Hx [Hy Hc]]].
  cbv zeta in Hn, Hx, Hy, Hc.
  fold (welford_of rows) in Hn, Hx, Hy, Hc.
  fold (welford_of (map swap rows)) in Hn, Hx, Hy, Hc.
  unfold corr_over. rewrite Hn, Hx, Hy.
  destruct (nobs (welford_of rows) <? min_periods)%nat; [exact I|]. cbv zeta.
  assert (Ed : ssqdm_y (welford_of rows) * ssqdm_x (welford_of rows) ==
               ssqdm_x (welford_of rows) * ssqdm_y (welford_of rows)) by ring.
  destruct (Qeq_bool (ssqdm_x (welford_of rows) * ssqdm_y (welford_of rows)) 0) eqn:E.
  - apply Qeq_bool_iff in E. rewrite <- Ed in E. apply Qeq_bool_iff in E.
    rewrite E. exact I.
  - destruct (Qeq_bool (ssqdm_y (welford_of rows) * ssqdm_x (welford_of rows)) 0) eqn:E'.
    + apply Qeq_bool_iff in E'. rewrite Ed in E'. apply Qeq_bool_iff in E'. congruence.
    + cbn [corr_same]. split; [exact Hc | exact Ed].
Qed.

Lemma corr_same_trans (u v w : corr_value) :
  corr_same u v -> corr_same v w -> corr_same u w.
Proof.
  destruct u as [|c1 d1], v as [|c2 d2], w as [|c3 d3]; cbn [corr_same];
    try tauto.
  intros [H1 H2] [H3 H4]. split; [rewrite H1; exact H3 | rewrite H2; exact H4].
Qed.

(** The entry read for a lag is Pearson's coefficient of the lagged rows,
    whichever of the two columns the loop takes first. *)
Lemma lag_entry_is_pearson (ckw cprice : nat) (rows : list (Q * Q)) :
  corr_same (lag_entry ckw cprice rows) (pearson_r rows).
Proof.
  unfold lag_entry. destruct (ckw <=? cprice)%nat; [|apply welford_is_pearson].
  apply (corr_same_trans _ (corr_over rows));
    [apply corr_over_swap | apply welford_is_pearson].
Qed.

End WelfordIsPearson.

(** C5: for a keyword column [x] and the price column [y] of a merged table
    without nulls, the loop returns the seven lags 1..7 in that order; at lag
    [k] the shifted column holds at row [i] the value that was at row
    [i - k], its first [k] rows are NaN and drop out, and the value returned
    for the lag is Pearson's correlation coefficient over exactly
    [length x - k] rows, the first [length x - k] values of [x] paired with
    the values of [y] from row [k] on: the sum of the products of the
    deviations from the two means over the square root of the product of the
    two sums of squared deviations, NaN where that product is zero. *)
Theorem lag_rows_and_order (h : heap) (merged_df : loc) (f : frame) (kw : string)
    (x y : column) (ckw cprice : nat)
    (Hf : nth_error h merged_df = Some f)
    (Hkw : position kw (column_names f) = Some ckw)
    (Hprice : position "Oil Price" (column_names f) = Some cprice)
    (Hne : ckw <> cprice)
    (Hx : nth_error (map snd (columns f)) ckw = Some x)
    (Hy : nth_error (map snd (columns f)) cprice = Some y)
    (Hlen : length x = length y)
    (Hxn : no_nulls x = true)
    (Hyn : no_nulls y = true) :
  lags_of merged_df kw h =
    Ok (map (fun k => lag_entry ckw cprice (lagged_rows k x y)) [1; 2; 3; 4; 5; 6; 7]%nat)
       (h ++ copies_of_keyword f kw (seq 1 7))
  /\ forall k : nat,
       (forall i, (i < length x)%nat ->
          nth i (shift k x) None = if (i <? k)%nat then None else nth (i - k) x None)
       /\ lagged_rows k x y =
            combine (known (firstn (length x - k) x)) (known (skipn k y))
       /\ length (lagged_rows k x y) = (length x - k)%nat
       /\ corr_same (lag_entry ckw cprice (lagged_rows k x y))
                    (pearson_r (lagged_rows k x y)).
Proof.
  split.
  - apply (lags_of_rows f kw x y ckw cprice Hkw Hprice Hne Hx Hy h merged_df Hf).
  - intros k. split; [intros i Hi; apply nth_shift, Hi|]. split; [|split].
    + rewrite lagged_rows_skip by exact Hlen.
      apply complete_pairs_no_nulls;
        [apply no_nulls_firstn | apply no_nulls_skipn]; assumption.
    + apply length_lagged_rows; assumption.
    + apply lag_entry_is_pearson.
Qed.

(** C2, as the code has it: a lag that leaves fewer than two rows, as every
    lag at or beyond the row count does, makes the run neither fail nor stop.
    Its entry is the NaN marker, and the loop still returns all seven lags of
    the keyword. *)
Theorem short_lag_window_is_nan (h : heap) (merged_df : loc) (f : frame)
    (kw : string) (x y : column) (ckw cprice : nat)
    (Hf : nth_error h merged_df = Some f)
    (Hkw : position kw (column_names f) = Some ckw)
    (Hprice : position "Oil Price" (column_names f) = Some cprice)
    (Hne : ckw <> cprice)
    (Hx : nth_error (map snd (columns f)) ckw = Some x)
    (Hy : nth_error (map snd (columns f)) cprice = Some y) :
  lags_of merged_df kw h =
    Ok (map (fun k => lag_entry ckw cprice (lagged_rows k x y)) (seq 1 7))
       (h ++ copies_of_keyword f kw (seq 1 7))
  /\ forall k : nat,
       (length (lagged_rows k x y) < 2)%nat \/ (length x <= k)%nat ->
       lag_entry ckw cprice (lagged_rows k x y) = CorrNaN
       /\ lag_value f kw k = Some CorrNaN.
Proof.
  split.
  - apply (lags_of_rows f kw x y ckw cprice Hkw Hprice Hne Hx Hy h merged_df Hf).
  - intros k Hshort.
    rewrite (lag_value_rows f kw x y ckw cprice Hkw Hprice Hne Hx Hy k).
    cut (lag_entry ckw cprice (lagged_rows k x y) = CorrNaN);
      [intros ->; split; reflexivity|].
    assert (Hlt : (length (lagged_rows k x y) < 2)%nat).
    { destruct Hshort as [H | H]; [exact H|].
      rewrite (lagged_rows_beyond k x y H). simpl. lia. }
    unfold lag_entry. destruct (ckw <=? cprice)%nat;
      rewrite corr_over_short; try reflexivity; [|exact Hlt].
    rewrite length_map. exact Hlt.
Qed.

(** ** The run as a whole *)

Lemma frame_getitem_name (f : frame) (name : string) (s : series) :
  frame_getitem f name = Some s -> sname s = name /\ sindex s = index f.
Proof.
  unfold frame_getitem. destruct (lookup_column name (columns f)); [|discriminate].
  intros [= <-]. split; reflexivity.
Qed.

(** A run that gets past the three guards and finds the closing price builds
    the merged table once, and everything it reports is a function of it. *)
Lemma run_report (keywords : list string) (interest oil : frame) (close : series) :
  keywords <> [] ->
  frame_empty interest = false ->
  frame_empty oil = false ->
  frame_getitem oil "Close" = Some close ->
  run keywords interest oil =
  match lag_results_of (merged_of interest close) keywords [] with
  | Some r =>
      Ok {| merged := merged_of interest close;
            correlation := corr (merged_of interest close);
            lag_df := r;
            download := to_csv (merged_of interest close) |}
         (merged_of interest close :: lag_copies (merged_of interest close) keywords)
  | None => Raised "KeyError"
  end.
Proof.
  intros Hk Hi Ho Hc. unfold run, tracker_app.
  destruct keywords as [|kw kws]; [congruence|]. cbn [length Nat.eqb].
  rewrite Hi, Ho, Hc. unfold key_of at 1.
  unfold bind at 1. unfold ret at 1.
  unfold bind at 1. unfold new_frame. cbn [length app].
  unfold bind at 1. unfold df_rename_inplace, bind, read_frame, write_frame.
  cbn [nth_error heap_set]. fold (trends_of interest).
  fold (merged_of interest close). unfold df_corr, bind, read_frame.
  cbn [nth_error]. unfold ret at 1.
  rewrite (lag_loop_run (kw :: kws) [merged_of interest close] 0%nat
             (merged_of interest close) [] eq_refl).
  destruct (lag_results_of (merged_of interest close) (kw :: kws) []);
    reflexivity.
Qed.

(** ** The labels of the merged table *)

Lemma has_label_false (name : string) (names : list string) :
  has_label name names = false -> forall n, In n names -> String.eqb n name = false.
Proof.
  unfold has_label. intros H n Hn.
  destruct (String.eqb_spec n name) as [-> | Hne]; [|reflexivity].
  assert (existsb (String.eqb name) names = true) as E
    by (apply existsb_exists; exists name; split; [exact Hn | apply String.eqb_refl]).
  congruence.
Qed.

Lemma merge_names_no_clash (left : frame) (right : series) :
  has_label (sname right) (column_names left) = false ->
  column_names (merge left right) = column_names left ++ [sname right].
Proof.
  intros H. unfold merge. rewrite H. unfold column_names. cbn [columns].
  rewrite map_app, map_map. reflexivity.
Qed.

Lemma rename_names (old new : string) (f : frame) :
  column_names (rename_columns old new f) =
  map (fun n => if String.eqb n old then new else n) (column_names f).
Proof.
  unfold column_names, rename_columns. cbn [columns]. rewrite !map_map.
  reflexivity.
Qed.

Lemma trends_names (f : frame) : column_names (trends_of f) = column_names f.
Proof.
  unfold column_names. rewrite columns_trends_of, map_map. reflexivity.
Qed.

Lemma merged_names (interest : frame) (close : series) :
  sname close = "Close"%string ->
  has_label "Close" (column_names interest) = false ->
  column_names (merged_of interest close) = column_names interest ++ ["Oil Price"%string].
Proof.
  intros Hs Hl. unfold merged_of. rewrite rename_names, merge_names_no_clash
    by (rewrite Hs, trends_names; exact Hl).
  rewrite trends_names, Hs, map_app. cbn [map]. rewrite String.eqb_refl.
  f_equal. rewrite <- (map_id (column_names interest)) at 2.
  apply map_ext_in. intros n Hn. rewrite (has_label_false _ _ Hl n Hn). reflexivity.
Qed.

(** C3, as the code has it: the merged table carries every column of the
    fetched interest frame, in the order of the frame, followed by the price
    column under the label [Oil Price]; the correlation matrix and the CSV
    header carry the same labels.  No column is filtered out. *)
Theorem merged_columns_follow_the_fetched_frame (interest_over_time_df oil_data : frame)
    (close : series)
    (Hclose : frame_getitem oil_data "Close" = Some close)
    (Hlabel : has_label "Close" (column_names interest_over_time_df) = false) :
  column_names (merged_of interest_over_time_df close) =
    column_names interest_over_time_df ++ ["Oil Price"%string]
  /\ labels (corr (merged_of interest_over_time_df close)) =
       column_names interest_over_time_df ++ ["Oil Price"%string]
  /\ csv_header (to_csv (merged_of interest_over_time_df close)) =
       column_names interest_over_time_df ++ ["Oil Price"%string].
Proof.
  destruct (frame_getitem_name _ _ _ Hclose) as [Hs _].
  pose proof (merged_names interest_over_time_df close Hs Hlabel) as H.
  repeat split; exact H.
Qed.

(** ** A join without rows *)

Lemma merged_without_rows (interest : frame) (close : series) :
  index (merged_of interest close) = [] -> all_empty (merged_of interest close).
Proof.
  rewrite index_merged_of. unfold take_index. intros H.
  apply map_eq_nil in H. apply map_eq_nil in H. intros n c Hin.
  unfold merged_of, rename_columns, merge in Hin. cbv zeta in Hin.
  cbn [columns] in Hin. rewrite H in Hin.
  apply in_map_iff in Hin. destruct Hin as [[n' c'] [[= _ <-] Hin]].
  apply in_app_or in Hin. destruct Hin as [Hin | [Hin | []]].
  - apply in_map_iff in Hin. destruct Hin as [nc [[= _ <-] _]]. reflexivity.
  - injection Hin as _ <-. reflexivity.
Qed.

Lemma nth_all_empty (f : frame) (i : nat) :
  all_empty f -> nth i (map snd (columns f)) [] = [].
Proof.
  intros H. destruct (nth_in_or_default i (map snd (columns f)) []) as [Hin | ->];
    [|reflexivity].
  apply in_map_iff in Hin. destruct Hin as [[n c] [E Hin]]. simpl in E.
  rewrite <- E. apply (H n c Hin).
Qed.

Lemma corr_all_empty (f : frame) (a b : string) :
  all_empty f -> In a (column_names f) -> In b (column_names f) ->
  matrix_getitem (corr f) a b = Some CorrNaN.
Proof.
  intros He Ha Hb.
  destruct (position_of_member a _ Ha) as [ia Hia].
  destruct (position_of_member b _ Hb) as [ib Hib].
  rewrite (matrix_getitem_corr f a b ia ib Hia Hib).
  rewrite !nth_all_empty by exact He. destruct (ia <=? ib)%nat; reflexivity.
Qed.

Lemma shift_nil (k : nat) : shift k [] = [].
Proof. unfold shift. cbn [length]. rewrite Nat.min_0_r, firstn_nil. reflexivity. Qed.

Lemma lag_value_all_empty (f : frame) (kw : string) (k : nat) :
  all_empty f -> In kw (column_names f) -> In "Oil Price"%string (column_names f) ->
  lag_value f kw k = Some CorrNaN.
Proof.
  intros He Hkw Hp.
  destruct (position_of_member kw _ Hkw) as [ckw Hckw].
  destruct (position_of_member _ _ Hp) as [cprice Hcprice].
  unfold lag_value, shifted_copy. rewrite lookup_column_position.
  fold (column_names f). rewrite Hckw.
  destruct (nth_error (map snd (columns f)) ckw) as [x|] eqn:Hx.
  - assert (x = []) as ->.
    { rewrite <- (nth_column _ _ _ Hx). apply nth_all_empty, He. }
    rewrite shift_nil.
    rewrite (matrix_getitem_corr _ kw "Oil Price" ckw cprice);
      unfold column_names; cbn [columns];
      try (rewrite (names_set_column kw _ (columns f) ckw Hckw); assumption).
    rewrite !(data_set_column kw _ (columns f) ckw _ Hckw).
    rewrite Nat.eqb_refl, (nth_all_empty f cprice He).
    destruct (cprice =? ckw)%nat; destruct (ckw <=? cprice)%nat; reflexivity.
  - apply nth_error_None in Hx. apply position_spec in Hckw.
    unfold column_names in Hckw. rewrite length_map in Hx, Hckw. lia.
Qed.

Lemma lag_values_all_empty (f : frame) (kw : string) (ks : list nat) :
  all_empty f -> In kw (column_names f) -> In "Oil Price"%string (column_names f) ->
  lag_values f kw ks = Some (repeat CorrNaN (length ks)).
Proof.
  intros He Hkw Hp. induction ks as [|k ks IH]; simpl; [reflexivity|].
  rewrite lag_value_all_empty, IH by assumption. reflexivity.
Qed.

Lemma in_dict_set {V : Type} (k : string) (v : V) (d : list (string * V))
    (p : string * V) :
  In p (dict_set k v d) -> p = (k, v) \/ In p d.
Proof.
  induction d as [|[k' v'] d IH]; simpl.
  - intros [<- | []]. left. reflexivity.
  - destruct (String.eqb_spec k' k) as [-> | Hne]; simpl.
    + intros [<- | H]; [left; reflexivity | right; right; exact H].
    + intros [<- | H]; [right; left; reflexivity|].
      destruct (IH H) as [-> | H']; [left; reflexivity | right; right; exact H'].
Qed.

Lemma lag_results_all_empty (f : frame) (keywords : list string)
    (acc : list (string * list corr_value)) :
  all_empty f -> In "Oil Price"%string (column_names f) ->
  (forall kw, In kw keywords -> In kw (column_names f)) ->
  (forall kw lags, In (kw, lags) acc -> lags = repeat CorrNaN 7) ->
  exists r, lag_results_of f keywords acc = Some r
            /\ forall kw lags, In (kw, lags) r -> lags = repeat CorrNaN 7.
Proof.
  intros He Hp. revert acc. induction keywords as [|kw kws IH]; intros acc Hk Hacc;
    cbn [lag_results_of].
  - exists acc. split; [reflexivity | exact Hacc].
  - rewrite (lag_values_all_empty f kw (seq 1 7) He (Hk kw (or_introl eq_refl)) Hp).
    apply IH.
    + intros kw' Hkw'. apply Hk. right. exact Hkw'.
    + intros kw' lags Hin. apply in_dict_set in Hin.
      destruct Hin as [E | Hin]; [inversion E; reflexivity | eapply Hacc, Hin].
Qed.

Lemma has_label_true (name : string) (names : list string) :
  has_label name names = true -> In name names.
Proof.
  unfold has_label. intros H. apply existsb_exists in H.
  destruct H as [n [Hn E]]. apply String.eqb_eq in E. subst. exact Hn.
Qed.

(** C1, as the code has it: when the inner join yields no row, the run
    neither stops nor raises.  It goes on with an empty merged table: every
    entry of the correlation matrix and every lagged correlation is the NaN
    marker. *)
Theorem no_overlap_run_completes (keywords : list string)
    (interest_over_time_df oil_data : frame) (close : series)
    (Hkw : keywords <> [])
    (Hi : frame_empty interest_over_time_df = false)
    (Ho : frame_empty oil_data = false)
    (Hclose : frame_getitem oil_data "Close" = Some close)
    (Hlabel : has_label "Close" (column_names interest_over_time_df) = false)
    (Hcols : forallb (fun kw => has_label kw (column_names interest_over_time_df))
                     keywords = true)
    (Hjoin : index (merged_of interest_over_time_df close) = []) :
  exists r h,
    run keywords interest_over_time_df oil_data = Ok r h
    /\ aborted (run keywords interest_over_time_df oil_data) = false
    /\ merged r = merged_of interest_over_time_df close
    /\ index (merged r) = []
    /\ (forall a b, In a (labels (correlation r)) -> In b (labels (correlation r)) ->
          matrix_getitem (correlation r) a b = Some CorrNaN)
    /\ (forall kw lags, In (kw, lags) (lag_df r) -> lags = repeat CorrNaN 7).
Proof.
  destruct (frame_getitem_name _ _ _ Hclose) as [Hs _].
  pose proof (merged_names _ _ Hs Hlabel) as Hnames.
  pose proof (merged_without_rows _ _ Hjoin) as He.
  destruct (lag_results_all_empty (merged_of interest_over_time_df close) keywords [])
    as [r [Hr Hnan]].
  - exact He.
  - rewrite Hnames. apply in_or_app. right. left. reflexivity.
  - intros kw Hin. rewrite Hnames. apply in_or_app. left.
    rewrite forallb_forall in Hcols. apply has_label_true, Hcols, Hin.
  - intros kw lags [].
  - rewrite (run_report keywords _ _ close Hkw Hi Ho Hclose), Hr.
    eexists. eexists. split; [reflexivity|]. split; [reflexivity|].
    split; [reflexivity|]. split; [exact Hjoin|]. split; [|exact Hnan].
    intros a b Ha Hb. apply corr_all_empty; assumption.
Qed.

(** ** The exported records *)

Lemma map_nth_seq {A : Type} (l : list A) (d : A) :
  map (fun i => nth i l d) (seq 0 (length l)) = l.
Proof.
  induction l as [|a l IH]; [reflexivity|].
  cbn [length seq map nth]. f_equal. rewrite <- seq_shift, map_map. exact IH.
Qed.

(** The export writes one record per row of the table, in the order of its
    index, under a header that lists the labels in the order of the
    columns. *)
Lemma to_csv_layout (f : frame) :
  csv_header (to_csv f) = column_names f
  /\ map fst (csv_records (to_csv f)) = index f.
Proof.
  split; [reflexivity|]. unfold to_csv. cbn [csv_records].
  rewrite map_map. cbn [fst]. apply map_nth_seq.
Qed.

(** * The claims on sample inputs *)

Section Samples.

Import Examples.

Local Open Scope nat_scope.
Local Open Scope string_scope.
Local Open Scope list_scope.

(** C1 fails as stated: interest in January and prices in March are both
    non-empty and share no timestamp, so the join has no row, and yet the run
    is not aborted. *)
Lemma january_march_run_is_not_aborted :
  frame_empty january_interest = false
  /\ frame_empty march_oil = false
  /\ index (merged_of january_interest march_close) = []
  /\ aborted (run ["crude oil"] january_interest march_oil) = false.
Proof. repeat split; vm_compute; reflexivity. Qed.

Lemma no_overlap_run_completes_witness :
  exists r h,
    run ["crude oil"] january_interest march_oil = Ok r h
    /\ aborted (run ["crude oil"] january_interest march_oil) = false
    /\ merged r = merged_of january_interest march_close
    /\ index (merged r) = []
    /\ (forall a b, In a (labels (correlation r)) -> In b (labels (correlation r)) ->
          matrix_getitem (correlation r) a b = Some CorrNaN)
    /\ (forall kw lags, In (kw, lags) (lag_df r) -> lags = repeat CorrNaN 7).
Proof.
  apply (no_overlap_run_completes ["crude oil"] january_interest march_oil march_close);
    [discriminate | reflexivity | reflexivity | reflexivity | reflexivity
    | reflexivity | reflexivity].
Defined.

(** C2 fails as stated: with two aligned rows, lag 1 leaves one row and the
    lags 2 to 7 leave none, and yet the run is not aborted and reports NaN
    for all seven. *)
Lemma two_day_lags_are_silent_nan :
  exists r h,
    run ["crude oil"] two_day_interest two_day_oil = Ok r h
    /\ length (index (merged r)) = 2%nat
    /\ lag_df r = [("crude oil", repeat CorrNaN 7)]
    /\ aborted (run ["crude oil"] two_day_interest two_day_oil) = false.
Proof.
  eexists. eexists. split; [vm_compute; reflexivity|].
  repeat split; vm_compute; reflexivity.
Qed.

Lemma short_lag_window_is_nan_witness :
  lags_of 0 "crude oil" [week_table] =
    Ok (map (fun k => lag_entry 0 2 (lagged_rows k week_crude week_price)) (seq 1 7))
       ([week_table] ++ copies_of_keyword week_table "crude oil" (seq 1 7))
  /\ forall k : nat,
       (length (lagged_rows k week_crude week_price) < 2)%nat
       \/ (length week_crude <= k)%nat ->
       lag_entry 0 2 (lagged_rows k week_crude week_price) = CorrNaN
       /\ lag_value week_table "crude oil" k = Some CorrNaN.
Proof.
  apply (short_lag_window_is_nan [week_table] 0 week_table "crude oil"
           week_crude week_price 0 2);
    [reflexivity | reflexivity | reflexivity | lia | reflexivity | reflexivity].
Defined.

(** C3 fails as stated: the [isPartial] column that comes with the interest
    frame is in the merged table, in the correlation matrix and in the CSV
    header, although it is no keyword. *)
Lemma isPartial_reaches_the_merged_table :
  exists r h,
    run ["crude oil"] week_interest week_oil = Ok r h
    /\ column_names (merged r) = ["crude oil"; "isPartial"; "Oil Price"]
    /\ column_names (merged r) <> ["crude oil"] ++ ["Oil Price"]
    /\ In "isPartial" (labels (correlation r))
    /\ In "isPartial" (csv_header (download r)).
Proof.
  eexists. eexists. split; [vm_compute; reflexivity|].
  split; [reflexivity|]. split; [discriminate|].
  split; right; left; reflexivity.
Qed.

Lemma merged_columns_follow_the_fetched_frame_witness :
  column_names (merged_of week_interest week_close) =
    column_names week_interest ++ ["Oil Price"]
  /\ labels (corr (merged_of week_interest week_close)) =
       column_names week_interest ++ ["Oil Price"]
  /\ csv_header (to_csv (merged_of week_interest week_close)) =
       column_names week_interest ++ ["Oil Price"].
Proof.
  apply (merged_columns_follow_the_fetched_frame week_interest week_oil week_close);
    reflexivity.
Defined.

Lemma merged_table_has_no_nulls_witness :
  frame_complete (merged_of week_interest week_close) = true
  /\ forall t, In t (index (merged_of week_interest week_close)) ->
               In t (sindex week_close).
Proof.
  apply (merged_table_has_no_nulls week_interest week_close); reflexivity.
Defined.

Lemma lag_rows_and_order_witness :
  lags_of 0 "crude oil" [week_table] =
    Ok (map (fun k => lag_entry 0 2 (lagged_rows k week_crude week_price))
            [1; 2; 3; 4; 5; 6; 7]%nat)
       ([week_table] ++ copies_of_keyword week_table "crude oil" (seq 1 7))
  /\ forall k : nat,
       (forall i, (i < length week_crude)%nat ->
          nth i (shift k week_crude) None =
          if (i <? k)%nat then None else nth (i - k) week_crude None)
       /\ lagged_rows k week_crude week_price =
            combine (known (firstn (length week_crude - k) week_crude))
                    (known (skipn k week_price))
       /\ length (lagged_rows k week_crude week_price) = (length week_crude - k)%nat
       /\ corr_same (lag_entry 0 2 (lagged_rows k week_crude week_price))
                    (pearson_r (lagged_rows k week_crude week_price)).
Proof.
  apply (lag_rows_and_order [week_table] 0 week_table "crude oil"
           week_crude week_price 0 2);
    [reflexivity | reflexivity | reflexivity | lia | reflexivity | reflexivity
    | reflexivity | reflexivity | reflexivity].
Defined.

Lemma zero_variance_entries_undefined_witness :
  matrix_getitem (corr flat_table) "crude oil" "LNG" = Some CorrNaN
  /\ matrix_getitem (corr flat_table) "LNG" "crude oil" = Some CorrNaN.
Proof.
  apply (zero_variance_entries_undefined flat_table "crude oil" "LNG" flat_crude);
    [reflexivity | reflexivity | right; left; reflexivity].
Defined.

Lemma lag_analysis_works_on_copies_witness :
  lag_loop 0 ["crude oil"] [] [week_table] =
    match lag_results_of week_table ["crude oil"] [] with
    | Some r => Ok r ([week_table] ++ lag_copies week_table ["crude oil"])
    | None => Raised "KeyError"
    end
  /\ nth_error ([week_table] ++ lag_copies week_table ["crude oil"]) 0 = Some week_table
  /\ forall kw k x,
       lookup_column kw (columns week_table) = Some x ->
       exists g, shifted_copy week_table kw k = Some g
                 /\ index g = index week_table
                 /\ lookup_column kw (columns g) = Some (shift k x).
Proof.
  apply (lag_analysis_works_on_copies [week_table] 0 week_table ["crude oil"]).
  reflexivity.
Defined.

End Samples.

(** * Further properties of the script *)

(** ** How a run can end *)

Lemma run_without_close (keywords : list string) (interest oil : frame) :
  keywords <> [] ->
  frame_empty interest = false ->
  frame_empty oil = false ->
  frame_getitem oil "Close" = None ->
  run keywords interest oil = Raised "KeyError".
Proof.
  intros Hk Hi Ho Hc. unfold run, tracker_app.
  destruct keywords as [|kw kws]; [congruence|]. cbn [length Nat.eqb].
  rewrite Hi, Ho, Hc. reflexivity.
Qed.

(** The run stops early exactly at its three guards: no keyword selected, or
    an empty fetched frame.  Past the guards it never stops: it completes or
    raises. *)
Theorem run_stops_exactly_at_guards (keywords : list string)
    (interest_over_time_df oil_data : frame) :
  (exists msg, run keywords interest_over_time_df oil_data = Stopped msg) <->
  keywords = [] \/ frame_empty interest_over_time_df = true
  \/ frame_empty oil_data = true.
Proof.
  split.
  - intros [msg H]. destruct keywords as [|kw kws]; [left; reflexivity|].
    destruct (frame_empty interest_over_time_df) eqn:Hi; [right; left; reflexivity|].
    destruct (frame_empty oil_data) eqn:Ho; [right; right; reflexivity|].
    exfalso. destruct (frame_getitem oil_data "Close") as [close|] eqn:Hc.
    + rewrite (run_report (kw :: kws) _ _ close ltac:(discriminate) Hi Ho Hc) in H.
      destruct (lag_results_of _ _ _); discriminate.
    + rewrite (run_without_close (kw :: kws) _ _ ltac:(discriminate) Hi Ho Hc) in H.
      discriminate.
  - unfold run, tracker_app. intros [-> | [H | H]].
    + eexists. reflexivity.
    + destruct keywords; cbn [length Nat.eqb]; [eexists; reflexivity|].
      rewrite H. eexists. reflexivity.
    + destruct keywords; cbn [length Nat.eqb]; [eexists; reflexivity|].
      destruct (frame_empty interest_over_time_df); [eexists; reflexivity|].
      rewrite H. eexists. reflexivity.
Qed.

(** The guards are tried in the order of the script, and each stops with its
    own message. *)
Theorem guards_in_order (keywords : list string)
    (interest_over_time_df oil_data : frame) (msg : string) :
  run keywords interest_over_time_df oil_data = Stopped msg ->
  (keywords = [] /\ msg = "Please select at least one keyword."%string)
  \/ (keywords <> [] /\ frame_empty interest_over_time_df = true
      /\ msg = "No trend data found for the selected keywords/timeframe."%string)
  \/ (keywords <> [] /\ frame_empty interest_over_time_df = false
      /\ frame_empty oil_data = true
      /\ msg = "Could not fetch oil price data."%string).
Proof.
  intros H. destruct keywords as [|kw kws].
  - left. unfold run, tracker_app in H. cbn [length Nat.eqb] in H.
    unfold st_stop in H. injection H as <-. split; reflexivity.
  - right. destruct (frame_empty interest_over_time_df) eqn:Hi.
    + left. unfold run, tracker_app in H. cbn [length Nat.eqb] in H.
      rewrite Hi in H. unfold st_stop in H. injection H as <-.
      repeat split; try reflexivity. discriminate.
    + right. destruct (frame_empty oil_data) eqn:Ho.
      * unfold run, tracker_app in H. cbn [length Nat.eqb] in H.
        rewrite Hi, Ho in H. unfold st_stop in H. injection H as <-.
        repeat split; try reflexivity. discriminate.
      * exfalso. destruct (frame_getitem oil_data "Close") as [close|] eqn:Hc.
        -- rewrite (run_report (kw :: kws) _ _ close ltac:(discriminate) Hi Ho Hc) in H.
           destruct (lag_results_of _ _ _); discriminate.
        -- rewrite (run_without_close (kw :: kws) _ _ ltac:(discriminate) Hi Ho Hc) in H.
           discriminate.
Qed.

Lemma lookup_column_defined (name : string) (cols : list (string * column)) :
  (exists c, lookup_column name cols = Some c) <-> In name (map fst cols).
Proof.
  rewrite lookup_column_position. split.
  - intros [c H]. destruct (position name (map fst cols)) as [i|] eqn:E; [|discriminate].
    apply position_spec in E. destruct E as [_ E]. eapply nth_error_In, E.
  - intros H. destruct (position_of_member _ _ H) as [i Hi]. rewrite Hi.
    apply position_spec in Hi. destruct Hi as [Hi _]. rewrite length_map in Hi.
    destruct (nth_error (map snd cols) i) as [c|] eqn:E; [eauto|].
    apply nth_error_None in E. rewrite length_map in E. lia.
Qed.

(** A lag can be read off exactly when the keyword and [Oil Price] are both
    labels of the table. *)
Lemma lag_value_defined (f : frame) (kw : string) (k : nat) :
  (exists v, lag_value f kw k = Some v) <->
  In kw (column_names f) /\ In "Oil Price"%string (column_names f).
Proof.
  unfold lag_value, shifted_copy. split.
  - intros [v H]. destruct (lookup_column kw (columns f)) as [x|] eqn:Hx; [|discriminate].
    assert (Hkw : In kw (column_names f))
      by (apply lookup_column_defined; eauto).
    split; [exact Hkw|]. destruct (position_of_member _ _ Hkw) as [ckw Hckw].
    unfold matrix_getitem, corr in H. cbn [labels entries] in H.
    unfold column_names in H at 1 2. cbn [columns] in H.
    rewrite (names_set_column kw _ (columns f) ckw Hckw) in H.
    fold (column_names f) in H. rewrite Hckw in H.
    destruct (position "Oil Price" (column_names f)) as [cp|] eqn:Hp; [|discriminate].
    apply position_spec in Hp. destruct Hp as [_ Hp]. eapply nth_error_In, Hp.
  - intros [Hkw Hp]. destruct (proj2 (lookup_column_defined kw (columns f)) Hkw) as [x ->].
    destruct (position_of_member _ _ Hkw) as [ckw Hckw].
    destruct (position_of_member _ _ Hp) as [cp Hcp].
    rewrite (matrix_getitem_corr _ kw "Oil Price" ckw cp);
      unfold column_names; cbn [columns];
      try (rewrite (names_set_column kw _ (columns f) ckw Hckw); assumption).
    eauto.
Qed.

Lemma lag_values_defined (f : frame) (kw : string) (k : nat) (ks : list nat) :
  (exists vs, lag_values f kw (k :: ks) = Some vs) <->
  In kw (column_names f) /\ In "Oil Price"%string (column_names f).
Proof.
  split.
  - intros [vs H]. cbn [lag_values] in H.
    destruct (lag_value f kw k) as [v|] eqn:E; [|discriminate].
    apply (lag_value_defined f kw k). eauto.
  - intros H. revert k. induction ks as [|k' ks IH]; intros k.
    + destruct (proj2 (lag_value_defined f kw k) H) as [v Hv].
      cbn [lag_values]. rewrite Hv. eauto.
    + destruct (proj2 (lag_value_defined f kw k) H) as [v Hv].
      destruct (IH k') as [vs Hvs]. cbn [lag_values] in *. rewrite Hv, Hvs. eauto.
Qed.

Lemma lag_results_defined (f : frame) (keywords : list string)
    (acc : list (string * list corr_value)) :
  (exists r, lag_results_of f keywords acc = Some r) <->
  keywords = [] \/
  ((forall kw, In kw keywords -> In kw (column_names f))
   /\ In "Oil Price"%string (column_names f)).
Proof.
  revert acc. induction keywords as [|kw kws IH]; intros acc; cbn [lag_results_of].
  - split; [left; reflexivity | eauto].
  - split.
    + intros [r H]. right.
      destruct (lag_values f kw (seq 1 7)) as [lags|] eqn:E; [|discriminate].
      destruct (proj1 (lag_values_defined f kw 1 (seq 2 6)) (ex_intro _ lags E))
        as [Hkw Hp].
      split; [|exact Hp]. intros kw' [<- | Hin]; [exact Hkw|].
      destruct (proj1 (IH _) (ex_intro _ r H)) as [-> | [Hall _]];
        [contradiction | apply Hall, Hin].
    + intros [H | [Hall Hp]]; [discriminate|].
      destruct (proj2 (lag_values_defined f kw 1 (seq 2 6))
                  (conj (Hall kw (or_introl eq_refl)) Hp)) as [lags Hl].
      change (seq 1 7) with (1%nat :: seq 2 6). rewrite Hl. apply IH.
      destruct kws; [left; reflexivity | right].
      split; [intros kw' Hin; apply Hall; right; exact Hin | exact Hp].
Qed.

(** Past the guards, the run completes exactly when every selected keyword
    is a label of the merged table, that is, a column of the fetched interest
    frame (or the price label itself); a keyword without a column makes the
    lag loop raise KeyError. *)
Theorem run_completes_iff_keywords_are_columns (keywords : list string)
    (interest_over_time_df oil_data : frame) (close : series)
    (Hkw : keywords <> [])
    (Hi : frame_empty interest_over_time_df = false)
    (Ho : frame_empty oil_data = false)
    (Hclose : frame_getitem oil_data "Close" = Some close)
    (Hlabel : has_label "Close" (column_names interest_over_time_df) = false) :
  (aborted (run keywords interest_over_time_df oil_data) = false <->
   forall kw, In kw keywords ->
     In kw (column_names interest_over_time_df ++ ["Oil Price"%string]))
  /\ (aborted (run keywords interest_over_time_df oil_data) = true ->
      run keywords interest_over_time_df oil_data = Raised "KeyError").
Proof.
  destruct (frame_getitem_name _ _ _ Hclose) as [Hs _].
  pose proof (merged_names _ _ Hs Hlabel) as Hnames.
  rewrite (run_report keywords _ _ close Hkw Hi Ho Hclose).
  pose proof (lag_results_defined (merged_of interest_over_time_df close) keywords [])
    as Hdef. rewrite Hnames in Hdef.
  destruct (lag_results_of (merged_of interest_over_time_df close) keywords [])
    as [r|]; cbn [aborted].
  - split; [|discriminate]. split; [|reflexivity]. intros _.
    destruct (proj1 Hdef (ex_intro _ r eq_refl)) as [-> | [Hall _]];
      [congruence | exact Hall].
  - split; [|reflexivity]. split; [discriminate|]. intros Hall. exfalso.
    destruct (proj2 Hdef) as [r Hr]; [|discriminate].
    right. split; [exact Hall|]. apply in_or_app. right. left. reflexivity.
Qed.

(** ** The correlation matrix as a whole *)

(** The matrix is symmetric: [corr()[a][b]] and [corr()[b][a]] are the same
    entry, for labels that exist and for labels that do not. *)
Theorem correlation_matrix_symmetric (f : frame) (a b : string) :
  matrix_getitem (corr f) a b = matrix_getitem (corr f) b a.
Proof.
  destruct (position a (column_names f)) as [ia|] eqn:Ha;
    destruct (position b (column_names f)) as [ib|] eqn:Hb.
  - rewrite (matrix_getitem_corr f a b ia ib Ha Hb),
      (matrix_getitem_corr f b a ib ia Hb Ha).
    destruct (Nat.leb_spec ia ib) as [H1 | H1];
      destruct (Nat.leb_spec ib ia) as [H2 | H2]; try reflexivity; try lia.
    replace ib with ia by lia. reflexivity.
  - unfold matrix_getitem. cbn [labels corr]. rewrite Ha, Hb. reflexivity.
  - unfold matrix_getitem. cbn [labels corr]. rewrite Ha, Hb. reflexivity.
  - unfold matrix_getitem. cbn [labels corr]. rewrite Ha, Hb. reflexivity.
Qed.

(** The matrix is square over the labels of the table, and an entry can be
    read exactly when both labels are columns of the table. *)
Theorem correlation_matrix_shape (f : frame) :
  labels (corr f) = column_names f
  /\ length (entries (corr f)) = length (columns f)
  /\ (forall row, In row (entries (corr f)) -> length row = length (columns f))
  /\ forall a b,
       (exists v, matrix_getitem (corr f) a b = Some v) <->
       In a (column_names f) /\ In b (column_names f).
Proof.
  split; [reflexivity|]. split.
  { unfold corr, nancorr. cbn [entries]. rewrite !length_map, length_seq. reflexivity. }
  split.
  { intros row Hrow. unfold corr, nancorr in Hrow. cbn [entries] in Hrow.
    apply in_map_iff in Hrow. destruct Hrow as [xi [<- _]].
    rewrite !length_map, length_seq. reflexivity. }
  intros a b. unfold matrix_getitem. cbn [labels corr]. split.
  - intros [v H].
    destruct (position a (column_names f)) as [ia|] eqn:Ha; [|discriminate].
    destruct (position b (column_names f)) as [ib|] eqn:Hb; [|discriminate].
    apply position_spec in Ha, Hb. destruct Ha as [_ Ha], Hb as [_ Hb].
    split; eapply nth_error_In; eassumption.
  - intros [Ha Hb]. destruct (position_of_member _ _ Ha) as [ia ->].
    destruct (position_of_member _ _ Hb) as [ib ->]. eauto.
Qed.

(** ** Shifting, filling and assigning columns *)

Lemma shift_exhausted (k : nat) (c : column) :
  (length c <= k)%nat -> shift k c = repeat None (length c).
Proof.
  intros H. unfold shift. replace (length c - k)%nat with 0%nat by lia.
  replace (Nat.min k (length c)) with (length c) by lia.
  cbn [firstn]. apply app_nil_r.
Qed.

(** Shifts add up: shifting by [k] and then by [j] is one shift by [j + k],
    which is why the script must shift a fresh copy for every lag.  A shift
    by 0 changes nothing, no shift changes the number of rows, and a shift by
    the row count or more leaves only NaN. *)
Theorem shift_composes (j k : nat) (c : column) :
  shift 0 c = c
  /\ length (shift k c) = length c
  /\ shift j (shift k c) = shift (j + k) c
  /\ ((length c <= k)%nat -> shift k c = repeat None (length c)).
Proof.
  split.
  { unfold shift. cbn [Nat.min repeat app]. rewrite Nat.sub_0_r. apply firstn_all. }
  split; [apply length_shift|]. split; [|apply shift_exhausted].
  apply (nth_ext _ _ None None).
  - rewrite !length_shift. reflexivity.
  - intros i Hi. rewrite !length_shift in Hi.
    rewrite nth_shift by (rewrite length_shift; exact Hi).
    rewrite (nth_shift (j + k)) by exact Hi.
    destruct (Nat.ltb_spec i j) as [Hj | Hj];
      destruct (Nat.ltb_spec i (j + k)) as [Hjk | Hjk]; try reflexivity; try lia.
    + rewrite nth_shift by lia.
      destruct (Nat.ltb_spec (i - j) k); [reflexivity | lia].
    + rewrite nth_shift by lia.
      destruct (Nat.ltb_spec (i - j) k); [lia|]. f_equal. lia.
Qed.

Lemma ffill_from_complete (last : cell) (c : column) :
  no_nulls c = true -> ffill_from last c = c.
Proof.
  revert last. induction c as [|v c IH]; intros last H; [reflexivity|].
  apply no_nulls_cons in H. destruct H as [[q ->] H]. simpl.
  rewrite IH by exact H. reflexivity.
Qed.

(** Forward fill changes a column at its NaN cells only, a column without
    NaN not at all, and filling twice is filling once. *)
Theorem ffill_is_idempotent (c : column) :
  ffill (ffill c) = ffill c
  /\ (no_nulls c = true -> ffill c = c)
  /\ length (ffill c) = length c.
Proof.
  split; [|split; [apply ffill_from_complete | apply length_ffill_from]].
  unfold ffill. induction c as [|[v|] c IH]; simpl; [reflexivity | | rewrite IH; reflexivity].
  f_equal. apply ffill_from_complete, no_nulls_ffill_from.
Qed.

Lemma lookup_set_column_other (name other : string) (c : column)
    (cols : list (string * column)) :
  other <> name ->
  lookup_column other (set_column name c cols) = lookup_column other cols.
Proof.
  intros Hne. induction cols as [|[n old] cols IH]; simpl.
  - destruct (String.eqb_spec name other) as [E | _]; [congruence | reflexivity].
  - destruct (String.eqb_spec n name) as [-> | Hn]; simpl.
    + destruct (String.eqb_spec name other) as [E | _]; [congruence | reflexivity].
    + rewrite IH. reflexivity.
Qed.

Lemma nth_error_heap_set (l : loc) (g : frame) (h : heap) :
  (l < length h)%nat -> nth_error (heap_set l g h) l = Some g.
Proof.
  revert l. induction h as [|a h IH]; intros l H; simpl in H; [lia|].
  destruct l as [|l]; simpl; [reflexivity | apply IH; lia].
Qed.

(** Assigning a column and reading it back gives the assigned column, and
    reading any other label gives what was there before, KeyError
    included. *)
Theorem setitem_then_getitem (h : heap) (l : loc) (f : frame) (kw other : string)
    (c : column)
    (Hf : nth_error h l = Some f) :
  let h' := heap_set l {| index := index f; columns := set_column kw c (columns f) |} h in
  (df_setitem l kw c ;;; df_getitem l kw) h = Ok c h'
  /\ (other <> kw ->
      (df_setitem l kw c ;;; df_getitem l other) h =
      match lookup_column other (columns f) with
      | Some x => Ok x h'
      | None => Raised "KeyError"
      end).
Proof.
  assert (Hl : (l < length h)%nat) by (apply nth_error_Some; congruence).
  cbv zeta. unfold df_setitem, df_getitem, bind, write_frame.
  rewrite (read_frame_at h l f Hf).
  rewrite (read_frame_at _ l _ (nth_error_heap_set l _ h Hl)). cbn [columns].
  split.
  - rewrite lookup_set_column. reflexivity.
  - intros Hne. rewrite (lookup_set_column_other kw other c _ Hne).
    destruct (lookup_column other (columns f)); reflexivity.
Qed.

(** ** The price period *)

(** Every option of the timeframe select box has its own entry in the
    mapping, so the [3mo] default of [get] is never taken for a selectable
    timeframe; for any other string the default applies. *)
Theorem selected_period_of_options (timeframe : string) :
  (In timeframe timeframe_options ->
   In (timeframe, selected_period timeframe) timeframe_mapping)
  /\ (~ In timeframe timeframe_options -> selected_period timeframe = "3mo"%string)
  /\ In (selected_period timeframe) (map snd timeframe_mapping).
Proof.
  unfold selected_period, timeframe_mapping, timeframe_options. cbn [dict_get map snd In].
  destruct (String.eqb_spec "today 3-m" timeframe) as [<- | H1].
  { repeat split; auto. }
  destruct (String.eqb_spec "today 12-m" timeframe) as [<- | H2].
  { repeat split; auto. tauto. }
  destruct (String.eqb_spec "today 5-y" timeframe) as [<- | H3].
  { repeat split; auto. tauto. }
  repeat split; auto. tauto.
Qed.

(** ** The table of lagged correlations *)






(** ** The copies made by the lag loop *)

Lemma in_set_column (kw : string) (c : column) (cols : list (string * column))
    (n : string) (c' : column) :
  In (n, c') (set_column kw c cols) -> In (n, c') cols \/ (n = kw /\ c' = c).
Proof.
  induction cols as [|[m old] cols IH]; simpl.
  - intros [[= <- <-] | []]. right. split; reflexivity.
  - destruct (String.eqb_spec m kw) as [-> | Hne]; simpl.
    + intros [[= <- <-] | H]; [right; split; reflexivity | left; right; exact H].
    + intros [H | H]; [left; left; exact H|].
      destruct (IH H) as [H' | H']; [left; right; exact H' | right; exact H'].
Qed.

Lemma lookup_column_in (name : string) (cols : list (string * column)) (c : column) :
  lookup_column name cols = Some c -> In (name, c) cols.
Proof.
  induction cols as [|[n old] cols IH]; simpl; [discriminate|].
  destruct (String.eqb_spec n name) as [-> | Hne].
  - intros [= ->]. left. reflexivity.
  - intros H. right. apply IH, H.
Qed.

Lemma in_copies_of_keyword (f : frame) (kw : string) (ks : list nat) (g : frame) :
  In g (copies_of_keyword f kw ks) <->
  exists k, In k ks /\ shifted_copy f kw k = Some g.
Proof.
  unfold copies_of_keyword. rewrite in_flat_map. split.
  - intros [k [Hk Hg]]. exists k. split; [exact Hk|].
    destruct (shifted_copy f kw k) as [g'|]; [|contradiction].
    destruct Hg as [-> | []]. reflexivity.
  - intros [k [Hk Hg]]. exists k. split; [exact Hk|]. rewrite Hg. left. reflexivity.
Qed.

Lemma length_copies_of_keyword (f : frame) (kw : string) (ks : list nat) :
  In kw (column_names f) -> length (copies_of_keyword f kw ks) = length ks.
Proof.
  intros H. destruct (proj2 (lookup_column_defined kw (columns f)) H) as [x Hx].
  unfold copies_of_keyword, shifted_copy. rewrite Hx.
  induction ks as [|k ks IH]; simpl; [reflexivity | rewrite IH; reflexivity].
Qed.

(** Every copy the lag loop leaves on the heap is the merged table with one
    keyword column shifted by one of the lags 1..7: same index, same labels,
    every other column untouched, columns still as long as the index.  A run
    over keywords that are columns makes seven copies per keyword. *)
Theorem lag_copies_differ_in_one_column (f : frame) (keywords : list string) :
  (forall g, In g (lag_copies f keywords) ->
     index g = index f
     /\ column_names g = column_names f
     /\ (frame_wf f = true -> frame_wf g = true)
     /\ exists kw k x,
          In kw keywords /\ (1 <= k <= 7)%nat
          /\ lookup_column kw (columns f) = Some x
          /\ lookup_column kw (columns g) = Some (shift k x)
          /\ forall other, other <> kw ->
               lookup_column other (columns g) = lookup_column other (columns f))
  /\ ((forall kw, In kw keywords -> In kw (column_names f)) ->
      length (lag_copies f keywords) = (7 * length keywords)%nat).
Proof.
  split.
  - intros g Hg. unfold lag_copies in Hg. apply in_flat_map in Hg.
    destruct Hg as [kw [Hkw Hg]]. apply in_copies_of_keyword in Hg.
    destruct Hg as [k [Hk Hg]]. apply in_seq in Hk. unfold shifted_copy in Hg.
    destruct (lookup_column kw (columns f)) as [x|] eqn:Hx; [|discriminate].
    injection Hg as <-. cbn [index columns].
    assert (Hin : In kw (column_names f)) by (apply lookup_column_defined; eauto).
    destruct (position_of_member _ _ Hin) as [ckw Hckw].
    split; [reflexivity|]. split.
    { unfold column_names. cbn [columns]. apply (names_set_column kw _ _ ckw Hckw). }
    split.
    { intros Hwf. apply frame_wf_spec. cbn [index columns]. intros n c Hc.
      apply in_set_column in Hc. destruct Hc as [Hc | [_ ->]].
      - apply (proj1 (frame_wf_spec f) Hwf n c Hc).
      - rewrite length_shift.
        apply (proj1 (frame_wf_spec f) Hwf kw x (lookup_column_in _ _ _ Hx)). }
    exists kw, k, x. split; [exact Hkw|]. split; [lia|]. split; [exact Hx|].
    split; [apply lookup_set_column|]. intros other Hne.
    apply lookup_set_column_other, Hne.
  - intros Hall. unfold lag_copies.
    induction keywords as [|kw kws IH]; [reflexivity|].
    cbn [flat_map]. rewrite length_app, IH
      by (intros kw' H; apply Hall; right; exact H).
    rewrite length_copies_of_keyword by (apply Hall; left; reflexivity).
    rewrite length_seq. simpl length. lia.
Qed.

(** ** The rows of the join *)

Lemma nth_error_take_cells (ix : list nat) (c : column) (r i : nat) :
  nth_error ix r = Some i -> nth_error (take_cells ix c) r = Some (nth i c None).
Proof.
  intros H. unfold take_cells. rewrite nth_error_map, H. reflexivity.
Qed.

(** Row [r] of the join is assembled from one row [i] of the left frame and
    one row [j] of the right series that carry the same timestamp: the row
    has that timestamp, every left column gives its cell of row [i], and the
    added last column gives the right cell of row [j]. *)
Theorem merge_takes_matching_rows (left : frame) (right : series) (r i j : nat)
    (Hr : nth_error (join_indexers (index left) (sindex right)) r = Some (i, j)) :
  (exists t, nth_error (index left) i = Some t
             /\ nth_error (sindex right) j = Some t
             /\ nth_error (index (merge left right)) r = Some t)
  /\ (forall p n c, nth_error (columns left) p = Some (n, c) ->
        exists n' c', nth_error (columns (merge left right)) p = Some (n', c')
                      /\ nth_error c' r = Some (nth i c None))
  /\ (exists n' c',
        nth_error (columns (merge left right)) (length (columns left)) = Some (n', c')
        /\ nth_error c' r = Some (nth j (sdata right) None)).
Proof.
  pose proof (nth_error_In _ _ Hr) as Hin. apply in_join_indexers in Hin.
  destruct Hin as [t [Hl Hrt]].
  assert (Hfst : nth_error (map fst (join_indexers (index left) (sindex right))) r
                 = Some i) by (rewrite nth_error_map, Hr; reflexivity).
  assert (Hsnd : nth_error (map snd (join_indexers (index left) (sindex right))) r
                 = Some j) by (rewrite nth_error_map, Hr; reflexivity).
  unfold merge. cbv zeta. cbn [index columns]. split; [|split].
  - exists t. split; [exact Hl|]. split; [exact Hrt|].
    unfold take_index. rewrite nth_error_map, Hfst. cbn [option_map].
    f_equal. apply nth_error_nth_eq, Hl.
  - intros p n c Hp.
    assert (Hlt : (p < length (columns left))%nat)
      by (apply nth_error_Some; congruence).
    rewrite nth_error_app1 by (rewrite length_map; exact Hlt).
    rewrite nth_error_map, Hp. cbn [option_map fst snd].
    eexists. eexists. split; [reflexivity|]. apply nth_error_take_cells, Hfst.
  - rewrite nth_error_app2 by (rewrite length_map; lia).
    rewrite length_map, Nat.sub_diag. cbn [nth_error].
    eexists. eexists. split; [reflexivity|]. apply nth_error_take_cells, Hsnd.
Qed.

Lemma length_take_cells (ix : list nat) (c : column) :
  length (take_cells ix c) = length ix.
Proof. unfold take_cells. apply length_map. Qed.

(** The merged table is a proper frame whatever the inputs: every column is
    as long as the index, it has one column more than the interest frame,
    and after the rename no column is labelled [Close]. *)
Theorem merged_table_is_well_formed (interest_over_time_df : frame) (close : series) :
  frame_wf (merged_of interest_over_time_df close) = true
  /\ length (columns (merged_of interest_over_time_df close)) =
       S (length (columns interest_over_time_df))
  /\ ~ In "Close"%string (column_names (merged_of interest_over_time_df close)).
Proof.
  split; [|split].
  - apply frame_wf_spec. intros n c Hin.
    unfold merged_of, rename_columns, merge in Hin. cbv zeta in Hin.
    cbn [columns] in Hin. unfold merged_of, rename_columns, merge. cbv zeta.
    cbn [index]. unfold take_index. rewrite !length_map.
    apply in_map_iff in Hin. destruct Hin as [[n' c'] [[= _ <-] Hin]].
    apply in_app_or in Hin. destruct Hin as [Hin | [Hin | []]].
    + apply in_map_iff in Hin. destruct Hin as [nc [[= _ <-] _]].
      rewrite length_take_cells, length_map. reflexivity.
    + injection Hin as _ <-. rewrite length_take_cells, length_map. reflexivity.
  - unfold merged_of, rename_columns, merge. cbv zeta. cbn [columns].
    rewrite length_map, length_app, length_map. cbn [length].
    rewrite columns_trends_of, length_map. lia.
  - unfold merged_of. rewrite rename_names. intros H. apply in_map_iff in H.
    destruct H as [n [E _]]. destruct (String.eqb_spec n "Close"); [discriminate|].
    congruence.
Qed.

(** ** The calendar laid by the resampling *)

Section CalendarOrder.

Import Calendar.

Ltac zlia := Z.div_mod_to_equations; lia.

Lemma rollback_monotone (d e : Z) : d <= e -> rollback d <= rollback e.
Proof.
  intros H. destruct (Z_le_gt_dec (rollback d) (rollback e)) as [Hle | Hgt];
    [exact Hle|]. exfalso.
  pose proof (CalendarFacts.rollback_le d) as Hd.
  assert (Hb : is_business (rollback d) = true)
    by apply CalendarFacts.rollback_business.
  rewrite (CalendarFacts.rollback_gap e (rollback d)) in Hb; [discriminate | lia | lia].
Qed.

Lemma next_bday_gap (d e : Z) : d < e -> e < next_bday d -> is_business e = false.
Proof.
  unfold next_bday, is_business, weekday. intros H1 H2.
  destruct (Z.eqb_spec ((d + 3) mod 7) 4) as [E4|E4];
    [apply Z.ltb_ge; zlia|].
  destruct (Z.eqb_spec ((d + 3) mod 7) 5) as [E5|E5];
    [apply Z.ltb_ge; zlia | lia].
Qed.

Lemma list_min_le (t : Z) (ts : list Z) (x : Z) :
  In x (t :: ts) -> list_min t ts <= x.
Proof.
  unfold list_min. revert t. induction ts as [|u ts IH]; intros t; simpl.
  - intros [<- | []]. lia.
  - intros [<- | [<- | H]].
    + pose proof (CalendarFacts.list_min_le_acc ts (Z.min t u)) as Hm.
      unfold list_min in Hm. lia.
    + pose proof (CalendarFacts.list_min_le_acc ts (Z.min t u)) as Hm.
      unfold list_min in Hm. lia.
    + apply IH. right. exact H.
Qed.

Lemma list_max_ge (t : Z) (ts : list Z) (x : Z) :
  In x (t :: ts) -> x <= list_max t ts.
Proof.
  unfold list_max. revert t. induction ts as [|u ts IH]; intros t; simpl.
  - intros [<- | []]. lia.
  - intros [<- | [<- | H]].
    + pose proof (CalendarFacts.list_max_ge_acc ts (Z.max t u)) as Hm.
      unfold list_max in Hm. lia.
    + pose proof (CalendarFacts.list_max_ge_acc ts (Z.max t u)) as Hm.
      unfold list_max in Hm. lia.
    + apply IH. right. exact H.
Qed.

Lemma in_bdate_range (a b d : Z) :
  In d (bdate_range a b) <-> a <= d <= b /\ is_business d = true.
Proof.
  unfold bdate_range. rewrite filter_In, in_map_iff. split.
  - intros [[i [<- Hi]] Hb]. apply in_seq in Hi. split; [lia | exact Hb].
  - intros [Hd Hb]. split; [|exact Hb]. exists (Z.to_nat (d - a)).
    split; [lia|]. apply in_seq. lia.
Qed.

Lemma consecutive_days_sorted (a : Z) (n s : nat) :
  StronglySorted Z.lt (map (fun i => a + Z.of_nat i) (seq s n)).
Proof.
  revert s. induction n as [|n IH]; intros s; simpl; constructor; [apply IH|].
  apply Forall_forall. intros x Hx. apply in_map_iff in Hx.
  destruct Hx as [i [<- Hi]]. apply in_seq in Hi. lia.
Qed.

Lemma sorted_filter {A : Type} (R : A -> A -> Prop) (p : A -> bool) (l : list A) :
  StronglySorted R l -> StronglySorted R (filter p l).
Proof.
  induction 1 as [|a l Hs IH Hf]; simpl; [constructor|].
  destruct (p a); [|exact IH]. constructor; [exact IH|].
  apply Forall_forall. intros x Hx. apply filter_In in Hx.
  rewrite Forall_forall in Hf. apply Hf. tauto.
Qed.

Lemma bdate_range_sorted (a b : Z) : StronglySorted Z.lt (bdate_range a b).
Proof. apply sorted_filter, consecutive_days_sorted. Qed.

(** The left edges of the bins of an ascending list of edges: every edge
    that has a later edge, in the same order; each bin runs from an edge to
    the next one. *)
Lemma bins_of_sorted (l : list Z) :
  StronglySorted Z.lt l ->
  StronglySorted Z.lt (map fst (bins l))
  /\ (forall x, In x (map fst (bins l)) <-> In x l /\ exists e, In e l /\ x < e)
  /\ (forall x y, In (x, y) (bins l) ->
        In x l /\ In y l /\ x < y /\ forall z, In z l -> ~ (x < z < y)).
Proof.
  induction 1 as [|a l Hs IH Hf]; [simpl; repeat split; try constructor; tauto|].
  rewrite Forall_forall in Hf. destruct IH as [IHs [IHin IHbin]].
  destruct l as [|b rest].
  - simpl. repeat split; try constructor; try tauto.
    intros [[<- | []] [e [[<- | []] He]]]. lia.
  - change (bins (a :: b :: rest)) with ((a, b) :: bins (b :: rest)).
    cbn [map fst]. split; [|split].
    + constructor; [exact IHs|]. apply Forall_forall. intros x Hx.
      apply IHin in Hx. apply Hf. tauto.
    + intros x. cbn [In]. rewrite IHin. split.
      * intros [<- | [Hx [e [He Hlt]]]].
        -- split; [left; reflexivity|]. exists b. split; [right; left; reflexivity|].
           apply Hf. left. reflexivity.
        -- split; [right; exact Hx|]. exists e. split; [right; exact He | exact Hlt].
      * intros [[<- | Hx] [e [He Hlt]]]; [left; reflexivity|]. right.
        split; [exact Hx|]. exists e. split; [|exact Hlt].
        destruct He as [<- | He]; [|exact He]. specialize (Hf x Hx). lia.
    + intros x y [[= <- <-] | Hxy].
      * assert (Hab : a < b) by (apply Hf; left; reflexivity).
        repeat split; [left; reflexivity | right; left; reflexivity | exact Hab |].
        intros z [<- | [<- | Hz]] Hbetween; try lia.
        inversion Hs as [|? ? _ Hfb]; subst. rewrite Forall_forall in Hfb.
        specialize (Hfb z Hz). lia.
      * destruct (IHbin x y Hxy) as [Hx [Hy [Hlt Hno]]].
        repeat split; [right; exact Hx | right; exact Hy | exact Hlt |].
        intros z [<- | Hz] Hbetween; [|apply (Hno z Hz Hbetween)].
        specialize (Hf x Hx). lia.
Qed.

Lemma sorted_map_midnight (l : list Z) :
  StronglySorted Z.lt l -> StronglySorted Z.lt (map midnight l).
Proof.
  induction 1 as [|a l Hs IH Hf]; simpl; constructor; [exact IH|].
  rewrite Forall_forall in *. intros x Hx. apply in_map_iff in Hx.
  destruct Hx as [d [<- Hd]]. specialize (Hf d Hd).
  unfold midnight, SECONDS_PER_DAY. lia.
Qed.

Lemma index_trends_of (f : frame) :
  index (trends_of f) = map midnight (map fst (resample_bins (index f))).
Proof. unfold trends_of, fillna_ffill, resample_B_mean. cbn [index]. rewrite map_map. reflexivity. Qed.

Lemma span_is_ordered (t0 : timestamp) (ts : list timestamp) :
  rollback (day_of (list_min t0 ts)) <= day_of (list_max t0 ts)
  /\ day_of (list_max t0 ts) < next_bday (day_of (list_max t0 ts)).
Proof.
  pose proof (CalendarFacts.list_min_le_acc ts t0).
  pose proof (CalendarFacts.list_max_ge_acc ts t0).
  pose proof (CalendarFacts.rollback_le (day_of (list_min t0 ts))).
  pose proof (CalendarFacts.next_bday_gt (day_of (list_max t0 ts))).
  split; [|lia].
  assert (day_of (list_min t0 ts) <= day_of (list_max t0 ts))
    by (unfold day_of, SECONDS_PER_DAY; zlia).
  lia.
Qed.

(** The labels of the bins over a non-empty index are the business days
    from the one at or before the earliest timestamp to the last one not
    after the latest timestamp. *)
Lemma in_bin_labels (t0 : timestamp) (ts : list timestamp) (d : Z) :
  In d (map fst (resample_bins (t0 :: ts))) <->
  is_business d = true
  /\ rollback (day_of (list_min t0 ts)) <= d <= day_of (list_max t0 ts).
Proof.
  unfold resample_bins.
  set (first := rollback (day_of (list_min t0 ts))).
  set (last := next_bday (day_of (list_max t0 ts))).
  destruct (span_is_ordered t0 ts) as [H1 H2]. fold first in H1. fold last in H2.
  destruct (bins_of_sorted _ (bdate_range_sorted first last)) as [_ [Hin _]].
  rewrite Hin, in_bdate_range. split.
  - intros [[Hd Hb] [e [He Hlt]]]. apply in_bdate_range in He.
    split; [exact Hb|]. split; [lia|].
    destruct (Z_le_gt_dec d (day_of (list_max t0 ts))) as [Hle | Hgt]; [exact Hle|].
    rewrite (next_bday_gap (day_of (list_max t0 ts)) d) in Hb;
      [discriminate | lia | fold last; lia].
  - intros [Hb Hd]. split; [split; [lia | exact Hb]|].
    exists last. split; [|lia]. apply in_bdate_range.
    split; [lia | apply CalendarFacts.next_bday_business].
Qed.

End CalendarOrder.

Lemma trends_index_sorted (f : frame) : StronglySorted Z.lt (index (trends_of f)).
Proof.
  rewrite index_trends_of. apply sorted_map_midnight.
  destruct (index f) as [|t0 ts]; [constructor|].
  unfold Calendar.resample_bins.
  apply (bins_of_sorted _ (bdate_range_sorted _ _)).
Qed.

Section ResampledCalendar.

Import Calendar.

Ltac zlia := Z.div_mod_to_equations; lia.

(** The resampled index is the business-day calendar of the interest span:
    exactly the midnights of the weekdays from the one at or before the
    earliest raw timestamp to the last one not after the latest raw
    timestamp, each once, in ascending order.  No weekend day is a label and
    no weekday of the span is missing. *)
Theorem trends_index_is_the_business_calendar (f : frame) (t0 : timestamp)
    (ts : list timestamp)
    (Hix : index f = t0 :: ts) :
  (forall t, In t (index (trends_of f)) <->
     exists d, t = midnight d /\ is_business d = true
               /\ rollback (day_of (list_min t0 ts)) <= d <= day_of (list_max t0 ts))
  /\ StronglySorted Z.lt (index (trends_of f)).
Proof.
  rewrite index_trends_of, Hix. split.
  - intros t. rewrite in_map_iff. split.
    + intros [d [<- Hd]]. apply in_bin_labels in Hd. exists d. tauto.
    + intros [d [-> Hd]]. exists d. split; [reflexivity|]. apply in_bin_labels. tauto.
  - rewrite <- Hix, <- index_trends_of. apply trends_index_sorted.
Qed.

(** A raw observation is averaged into the bin labelled with the business
    day at or before it, and into no other: a Saturday or Sunday value counts
    for the Friday before. *)
Theorem raw_point_falls_in_its_rollback_bin (f : frame) (t : timestamp)
    (Ht : In t (index f)) :
  (exists b, In b (resample_bins (index f)) /\ fst b = rollback (day_of t))
  /\ forall b, In b (resample_bins (index f)) ->
       (in_bin b t = true <-> fst b = rollback (day_of t)).
Proof.
  destruct (index f) as [|t0 ts] eqn:Hix; [contradiction|].
  pose proof (CalendarFacts.rollback_le (day_of t)) as Hrl.
  pose proof (CalendarFacts.rollback_business (day_of t)) as Hrb.
  split.
  - assert (Hin : In (rollback (day_of t)) (map fst (resample_bins (t0 :: ts)))).
    { apply in_bin_labels. split; [exact Hrb|].
      pose proof (list_min_le t0 ts t Ht). pose proof (list_max_ge t0 ts t Ht).
      split.
      - apply rollback_monotone. unfold day_of, SECONDS_PER_DAY. zlia.
      - assert (day_of t <= day_of (list_max t0 ts))
          by (unfold day_of, SECONDS_PER_DAY; zlia). lia. }
    apply in_map_iff in Hin. destruct Hin as [b [E Hb]]. exists b. tauto.
  - intros [x y] Hb. unfold resample_bins in Hb.
    set (first := rollback (day_of (list_min t0 ts))) in Hb.
    set (last := next_bday (day_of (list_max t0 ts))) in Hb.
    destruct (bins_of_sorted _ (bdate_range_sorted first last)) as [_ [_ Hbins]].
    destruct (Hbins x y Hb) as [Hx [Hy [Hxy Hno]]].
    apply in_bdate_range in Hx, Hy. destruct Hx as [Hxr Hxb], Hy as [Hyr Hyb].
    unfold in_bin. cbn [fst snd]. rewrite andb_true_iff, Z.leb_le, Z.ltb_lt.
    split.
    + intros [H1 H2].
      assert (Hd : x <= day_of t < y)
        by (unfold midnight, day_of, SECONDS_PER_DAY in *; zlia).
      destruct (Z.lt_trichotomy (rollback (day_of t)) x) as [Hlt | [Heq | Hgt]].
      * rewrite (CalendarFacts.rollback_gap (day_of t) x) in Hxb;
          [discriminate | lia | lia].
      * symmetry. exact Heq.
      * exfalso. apply (Hno (rollback (day_of t))); [|lia].
        apply in_bdate_range. split; [lia | exact Hrb].
    + intros ->.
      assert (Hd : day_of t < y).
      { destruct (Z_lt_le_dec (day_of t) y) as [Hlt | Hge]; [exact Hlt|].
        rewrite (CalendarFacts.rollback_gap (day_of t) y) in Hyb;
          [discriminate | exact Hxy | exact Hge]. }
      unfold midnight, day_of, SECONDS_PER_DAY in *. zlia.
Qed.

End ResampledCalendar.

(** ** The join on unique price dates *)

Lemma map_snd_combine_seq {A : Type} (l : list A) (s : nat) :
  map snd (combine (seq s (length l)) l) = l.
Proof.
  revert s. induction l as [|a l IH]; intros s; simpl; [reflexivity|].
  rewrite IH. reflexivity.
Qed.

Lemma length_matches (r : list timestamp) (t : timestamp) (s : nat) :
  length (filter (fun ju : nat * timestamp => snd ju =? t)
                 (combine (seq s (length r)) r)) =
  length (filter (fun u => u =? t) r).
Proof.
  revert s. induction r as [|a r IH]; intros s; simpl; [reflexivity|].
  destruct (a =? t); simpl; rewrite IH; reflexivity.
Qed.

Lemma count_in_nodup (r : list timestamp) (t : timestamp) :
  NoDup r ->
  length (filter (fun u => u =? t) r) = if existsb (Z.eqb t) r then 1%nat else 0%nat.
Proof.
  induction 1 as [|a r Hni Hnd IH]; simpl; [reflexivity|].
  rewrite (Z.eqb_sym t a). destruct (Z.eqb_spec a t) as [-> | Hne]; simpl.
  - destruct (existsb (Z.eqb t) r) eqn:E; [|rewrite IH; reflexivity].
    apply existsb_exists in E. destruct E as [u [Hu E]].
    apply Z.eqb_eq in E. subst u. contradiction.
  - exact IH.
Qed.

Lemma flat_map_singletons {A : Type} (p : A -> bool) (l : list A) :
  flat_map (fun t => if p t then [t] else []) l = filter p l.
Proof.
  induction l as [|a l IH]; simpl; [reflexivity|].
  rewrite IH. destruct (p a); reflexivity.
Qed.

Lemma map_const_repeat {A B : Type} (x : B) (l : list A) :
  map (fun _ => x) l = repeat x (length l).
Proof. induction l as [|a l IH]; simpl; [reflexivity | rewrite IH; reflexivity]. Qed.

(** The joined index repeats each left timestamp once per match. *)
Lemma joined_index_by_matches (l r : list timestamp) :
  take_index (map fst (join_indexers l r)) l =
  flat_map (fun t => repeat t (length (filter (fun u => u =? t) r))) l.
Proof.
  unfold take_index, join_indexers, enumerate. rewrite map_map.
  assert (Hmem : forall p, In p (combine (seq 0 (length l)) l) ->
                           nth (fst p) l 0 = snd p).
  { intros [i t] Hp. apply (in_enumerate l i t) in Hp.
    apply nth_error_nth_eq, Hp. }
  rewrite <- (map_snd_combine_seq l 0) at 3.
  induction (combine (seq 0 (length l)) l) as [|[i t] E IH]; [reflexivity|].
  cbn [flat_map map snd]. rewrite map_app, IH
    by (intros p Hp; apply Hmem; right; exact Hp).
  f_equal. rewrite map_map. cbn [fst snd].
  pose proof (Hmem (i, t) (or_introl eq_refl)) as Hit. cbn [fst snd] in Hit.
  rewrite (map_ext _ (fun _ => t)) by (intros ju; exact Hit).
  rewrite map_const_repeat, length_matches. reflexivity.
Qed.

Lemma sorted_lt_nodup (l : list Z) : StronglySorted Z.lt l -> NoDup l.
Proof.
  induction 1 as [|a l Hs IH Hf]; constructor; [|exact IH].
  intros Hin. rewrite Forall_forall in Hf. specialize (Hf a Hin). lia.
Qed.

(** When no price date repeats, the merged index is the business calendar
    of the interest span filtered to the price dates: ascending, without
    duplicates, and never longer than either side. *)
Theorem merged_rows_for_unique_price_dates (interest_over_time_df : frame)
    (close : series)
    (Hnd : NoDup (sindex close)) :
  index (merged_of interest_over_time_df close) =
    filter (fun t => existsb (Z.eqb t) (sindex close))
           (index (trends_of interest_over_time_df))
  /\ StronglySorted Z.lt (index (merged_of interest_over_time_df close))
  /\ NoDup (index (merged_of interest_over_time_df close))
  /\ (length (index (merged_of interest_over_time_df close))
      <= length (index (trends_of interest_over_time_df)))%nat
  /\ (length (index (merged_of interest_over_time_df close))
      <= length (sindex close))%nat.
Proof.
  assert (E : index (merged_of interest_over_time_df close) =
              filter (fun t => existsb (Z.eqb t) (sindex close))
                     (index (trends_of interest_over_time_df))).
  { rewrite index_merged_of, joined_index_by_matches.
    rewrite <- flat_map_singletons. apply flat_map_ext. intros t.
    rewrite (count_in_nodup _ t Hnd).
    destruct (existsb (Z.eqb t) (sindex close)); reflexivity. }
  assert (Hs : StronglySorted Z.lt (index (merged_of interest_over_time_df close)))
    by (rewrite E; apply sorted_filter, trends_index_sorted).
  split; [exact E|]. split; [exact Hs|].
  split; [apply sorted_lt_nodup, Hs|]. split.
  - rewrite E. apply filter_length_le.
  - apply NoDup_incl_length; [apply sorted_lt_nodup, Hs|].
    intros t Ht. rewrite E in Ht. apply filter_In in Ht. destruct Ht as [_ Ht].
    apply existsb_exists in Ht. destruct Ht as [u [Hu Eu]].
    apply Z.eqb_eq in Eu. subst u. exact Hu.
Qed.

(** ** What a completed run reports *)

(** The parts of a report belong together: the merged table is the aligned
    table built from the two fetched frames, the correlation matrix and the
    exported file are computed from that same table, the lag table from it as
    well, and at the end of the run the table is still the first object on
    the heap, followed by the copies of the lag loop. *)
Theorem completed_run_is_consistent (keywords : list string)
    (interest_over_time_df oil_data : frame) (r : report) (h : heap)
    (Hrun : run keywords interest_over_time_df oil_data = Ok r h) :
  exists close,
    frame_getitem oil_data "Close" = Some close
    /\ merged r = merged_of interest_over_time_df close
    /\ correlation r = corr (merged r)
    /\ download r = to_csv (merged r)
    /\ lag_results_of (merged r) keywords [] = Some (lag_df r)
    /\ h = merged r :: lag_copies (merged r) keywords.
Proof.
  destruct keywords as [|kw kws]; [discriminate|].
  destruct (frame_empty interest_over_time_df) eqn:Hi;
    [unfold run, tracker_app in Hrun; cbn [length Nat.eqb] in Hrun;
     rewrite Hi in Hrun; discriminate|].
  destruct (frame_empty oil_data) eqn:Ho;
    [unfold run, tracker_app in Hrun; cbn [length Nat.eqb] in Hrun;
     rewrite Hi, Ho in Hrun; discriminate|].
  destruct (frame_getitem oil_data "Close") as [close|] eqn:Hc.
  - rewrite (run_report (kw :: kws) _ _ close ltac:(discriminate) Hi Ho Hc) in Hrun.
    destruct (lag_results_of (merged_of interest_over_time_df close) (kw :: kws) [])
      as [lr|] eqn:Hl; [|discriminate].
    injection Hrun as <- <-. exists close. cbn [merged correlation download lag_df].
    repeat split. exact Hl.
  - rewrite (run_without_close (kw :: kws) _ _ ltac:(discriminate) Hi Ho Hc) in Hrun.
    discriminate.
Qed.

(** * The further properties on sample inputs *)

Section FurtherSamples.

Import Examples.

Local Open Scope nat_scope.
Local Open Scope string_scope.
Local Open Scope list_scope.

Lemma guards_in_order_witness :
  ([] = ([] : list string) /\ "Please select at least one keyword."
                              = "Please select at least one keyword.")
  \/ ([] <> ([] : list string) /\ frame_empty week_interest = true
      /\ "Please select at least one keyword."
         = "No trend data found for the selected keywords/timeframe.")
  \/ ([] <> ([] : list string) /\ frame_empty week_interest = false
      /\ frame_empty week_oil = true
      /\ "Please select at least one keyword." = "Could not fetch oil price data.").
Proof.
  apply (guards_in_order [] week_interest week_oil
           "Please select at least one keyword.").
  reflexivity.
Defined.

Lemma run_completes_iff_keywords_are_columns_witness :
  (aborted (run ["crude oil"] week_interest week_oil) = false <->
   forall kw, In kw ["crude oil"] ->
     In kw (column_names week_interest ++ ["Oil Price"]))
  /\ (aborted (run ["crude oil"] week_interest week_oil) = true ->
      run ["crude oil"] week_interest week_oil = Raised "KeyError").
Proof.
  apply (run_completes_iff_keywords_are_columns ["crude oil"] week_interest
           week_oil week_close);
    [discriminate | reflexivity | reflexivity | reflexivity | reflexivity].
Defined.

Lemma setitem_then_getitem_witness :
  let h' :=
    heap_set 0 {| index := index week_table;
                  columns := set_column "crude oil" week_price (columns week_table) |}
             [week_table] in
  (df_setitem 0 "crude oil" week_price ;;; df_getitem 0 "crude oil") [week_table]
    = Ok week_price h'
  /\ ("isPartial" <> "crude oil" ->
      (df_setitem 0 "crude oil" week_price ;;; df_getitem 0 "isPartial") [week_table] =
      match lookup_column "isPartial" (columns week_table) with
      | Some x => Ok x h'
      | None => Raised "KeyError"
      end).
Proof.
  apply (setitem_then_getitem [week_table] 0 week_table "crude oil" "isPartial"
           week_price).
  reflexivity.
Defined.


Lemma merge_takes_matching_rows_witness :
  (exists t, nth_error (index week_table) 1 = Some t
             /\ nth_error (sindex week_close) 1 = Some t
             /\ nth_error (index (merge week_table week_close)) 1 = Some t)
  /\ (forall p n c, nth_error (columns week_table) p = Some (n, c) ->
        exists n' c', nth_error (columns (merge week_table week_close)) p = Some (n', c')
                      /\ nth_error c' 1 = Some (nth 1 c None))
  /\ (exists n' c',
        nth_error (columns (merge week_table week_close))
                  (length (columns week_table)) = Some (n', c')
        /\ nth_error c' 1 = Some (nth 1 (sdata week_close) None)).
Proof.
  apply (merge_takes_matching_rows week_table week_close 1 1 1). reflexivity.
Defined.

Lemma trends_index_is_the_business_calendar_witness :
  (forall t, In t (index (trends_of week_interest)) <->
     exists d, t = Calendar.midnight d /\ Calendar.is_business d = true
               /\ (Calendar.rollback
                     (Calendar.day_of
                        (Calendar.list_min (day 19723)
                           (map day [19724; 19725; 19726; 19727; 19728; 19729]%Z)))
                   <= d
                   <= Calendar.day_of
                        (Calendar.list_max (day 19723)
                           (map day [19724; 19725; 19726; 19727; 19728; 19729]%Z)))%Z)
  /\ StronglySorted Z.lt (index (trends_of week_interest)).
Proof.
  apply (trends_index_is_the_business_calendar week_interest (day 19723)
           (map day [19724; 19725; 19726; 19727; 19728; 19729]%Z)).
  reflexivity.
Defined.

Lemma raw_point_falls_in_its_rollback_bin_witness :
  (exists b, In b (Calendar.resample_bins (index week_interest))
             /\ fst b = Calendar.rollback (Calendar.day_of (day 19728)))
  /\ forall b, In b (Calendar.resample_bins (index week_interest)) ->
       (Calendar.in_bin b (day 19728) = true <->
        fst b = Calendar.rollback (Calendar.day_of (day 19728))).
Proof.
  apply (raw_point_falls_in_its_rollback_bin week_interest (day 19728)).
  simpl. tauto.
Defined.

Lemma merged_rows_for_unique_price_dates_witness :
  index (merged_of week_interest week_close) =
    filter (fun t => existsb (Z.eqb t) (sindex week_close))
           (index (trends_of week_interest))
  /\ StronglySorted Z.lt (index (merged_of week_interest week_close))
  /\ NoDup (index (merged_of week_interest week_close))
  /\ length (index (merged_of week_interest week_close))
     <= length (index (trends_of week_interest))
  /\ length (index (merged_of week_interest week_close)) <= length (sindex week_close).
Proof.
  apply (merged_rows_for_unique_price_dates week_interest week_close).
  vm_compute. repeat (constructor; [simpl; intuition lia|]). constructor.
Defined.

Lemma completed_run_is_consistent_witness :
  exists r h,
    run ["crude oil"] week_interest week_oil = Ok r h
    /\ exists close,
         frame_getitem week_oil "Close" = Some close
         /\ merged r = merged_of week_interest close
         /\ correlation r = corr (merged r)
         /\ download r = to_csv (merged r)
         /\ lag_results_of (merged r) ["crude oil"] [] = Some (lag_df r)
         /\ h = merged r :: lag_copies (merged r) ["crude oil"].
Proof.
  eexists. eexists. split; [vm_compute; reflexivity|].
  apply (completed_run_is_consistent ["crude oil"] week_interest week_oil).
  vm_compute. reflexivity.
Defined.

End FurtherSamples.
